(** * basic-auth-4-express: the constant-time comparator and the
      authorization middleware of [lib/index.js], embedded in Rocq.

    The development follows the source file top to bottom:
    - the JavaScript values the code manipulates (strings as sequences of
      UTF-16 code units, first-order data, exceptions);
    - the pieces of the Node platform the code calls
      ([Buffer.byteLength], [Buffer.alloc], [buf.write],
      [crypto.timingSafeEqual], [assert], [assert.ifError]);
    - [safeCompare], [ensureFunction], [buildMiddleware] with its closures
      [staticUsersAuthorizer], [authMiddleware], [unauthorized] and
      [authorizerCallback];
    - the properties of the specification, one theorem per claim.

    How the surroundings are modelled:
    - a function returns a value or throws ([result]); the middleware
      also acts on the request object, the response object and the
      pipeline, which is a state made of the request and of the log of
      the calls made so far ([M]);
    - a function handed in by the caller ([authorizer], [realm],
      [unauthorizedResponse]) is known by what it does to this module: it
      returns, throws, or invokes the callback it received and goes on
      ([behaviour]); it does not change the request object;
    - the parser of the [basic-auth] package is a parameter;
    - numbers are integers; time is not modelled, so a callback invoked
      later appears in the log at the place where it is invoked. *)

From Stdlib Require Import String Ascii DecimalString.
From Stdlib Require Import ZArith List Lia Bool.
Import ListNotations.
Open Scope Z_scope.
Set Warnings "-register-all".

(* ================================================================== *)
(** ** JavaScript strings and values *)
(* ================================================================== *)

(** A JavaScript string is a finite sequence of UTF-16 code units. *)
Definition jsstring := list Z.

(** ASCII literals of the source, as code units. *)
Fixpoint lit (s : String.string) : jsstring :=
  match s with
  | String.EmptyString => []
  | String.String c rest => Z.of_nat (Ascii.nat_of_ascii c) :: lit rest
  end.
Arguments lit s%_string.

(** The double quote, U+0022. *)
Definition dquote : jsstring := [34].

Definition jsstring_eq_dec : forall a b : jsstring, {a = b} + {a <> b} :=
  list_eq_dec Z.eq_dec.

(** First-order data.  Numbers are the integral ones (no NaN, no
    fractions); an object is the list of its enumerable properties in the
    order [for ... in] visits them. *)
Inductive value : Type :=
| VUndefined
| VNull
| VBool (b : bool)
| VNum (n : Z)
| VStr (s : jsstring)
| VObj (props : list (jsstring * value)).

(** What a JavaScript function can throw here. *)
Inductive exn : Type :=
| TypeError                         (* ERR_INVALID_ARG_TYPE and the like *)
| RangeError                        (* timingSafeEqual on unequal lengths *)
| AssertionError (message : jsstring)   (* assert(false, message) *)
| IfError (err : value)             (* raised by assert.ifError(err) *)
| Thrown (v : value).               (* a [throw] of user code *)

Inductive result (A : Type) : Type :=
| Ret (a : A)
| Throw (e : exn).
Arguments Ret {A} a.
Arguments Throw {A} e.

Definition rbind {A B} (r : result A) (k : A -> result B) : result B :=
  match r with
  | Ret a => k a
  | Throw e => Throw e
  end.

Declare Scope js_scope.
Delimit Scope js_scope with js.
Notation "'let!' x ':=' c 'in' k" := (rbind c (fun x => k))
  (at level 10, x name, c at level 100, k at level 200) : js_scope.
Notation "'let!' ' p ':=' c 'in' k" :=
  (rbind c (fun x => match x with p => k end))
  (at level 10, p pattern, c at level 100, k at level 200) : js_scope.
Open Scope js_scope.

(** [typeof v] *)
Definition typeof (v : value) : jsstring :=
  match v with
  | VUndefined => lit "undefined"
  | VNull => lit "object"
  | VBool _ => lit "boolean"
  | VNum _ => lit "number"
  | VStr _ => lit "string"
  | VObj _ => lit "object"
  end.

(** ToBoolean: what [!!v], [!v], [v || d] and [if (v)] look at. *)
Definition truthy (v : value) : bool :=
  match v with
  | VUndefined | VNull => false
  | VBool b => b
  | VNum n => negb (n =? 0)
  | VStr s => match s with [] => false | _ => true end
  | VObj _ => true
  end.

(** ToInt32 of a number: wrap-around into [-2^31, 2^31). *)
Definition wrap32 (n : Z) : Z := (n + 2 ^ 31) mod 2 ^ 32 - 2 ^ 31.

Definition b2z (b : bool) : Z := if b then 1 else 0.

(** ToInt32, the conversion the bitwise operators [&] and [|] apply to
    their operands.  The operands of this module are booleans and numbers;
    [undefined] converts to 0, and so does everything else here. *)
Definition ToInt32 (v : value) : Z :=
  match v with
  | VBool b => b2z b
  | VNum n => wrap32 n
  | _ => 0
  end.

(** The decimal digits of an integer. *)
Definition decimal_digits (n : Z) : jsstring :=
  lit (DecimalString.NilZero.string_of_int (Z.to_int n)).

(** The Number value of a non-negative integer: the integer itself up
    to 53 bits, beyond that the nearest one with 53 significant bits, the
    even one of two equally near. *)
Definition round_to_double (n : Z) : Z :=
  if n <? 2 ^ 53 then n
  else
    let e := Z.log2 n - 52 in
    let q := Z.shiftr n e in
    let r := Z.land n (Z.ones e) in
    let half := Z.shiftl 1 (e - 1) in
    let q' := if (half <? r) || ((r =? half) && Z.odd q) then q + 1 else q in
    Z.shiftl q' e.

(** Number::toString looks for the fewest digits [s] (there are [k] of
    them) such that [s] followed by zeros, [digits] digits in all, still
    denotes the Number [m].  With [k] digits the only candidates are the
    leading [k] digits of [m] and their successor; of two that fit the
    nearer one is taken, the even one when they are equally near. *)
Definition fewest_digits_at (m digits k : Z) : option Z :=
  let scale := 10 ^ (digits - k) in
  let lo := m / scale in
  let hi := lo + 1 in
  let fits s := (s <? 10 ^ k) && (round_to_double (s * scale) =? m) in
  match fits lo, fits hi with
  | true, true =>
      let below := m - lo * scale in
      let above := hi * scale - m in
      Some (if below <? above then lo
            else if above <? below then hi
            else if Z.even lo then lo else hi)
  | true, false => Some lo
  | false, true => Some hi
  | false, false => None
  end.

Fixpoint fewest_digits (tries : nat) (m digits k : Z) : Z * Z :=
  match tries with
  | O => (m, digits)
  | S tries' =>
      if digits <=? k then (m, digits)
      else
        match fewest_digits_at m digits k with
        | Some s => (s, k)
        | None => fewest_digits tries' m digits (k + 1)
        end
  end.

(** Number::toString for an integral number: the digits and the zeros
    up to 21 digits, the exponent form beyond ([1e21] prints as
    [1e+21]). *)
Definition number_to_string (n : Z) : jsstring :=
  if n =? 0 then lit "0"
  else
    let sign := if n <? 0 then lit "-" else [] in
    let m := round_to_double (Z.abs n) in
    if 2 ^ 1024 <=? m then sign ++ lit "Infinity"
    else
      let digits := Z.of_nat (length (decimal_digits m)) in
      let '(s, k) := fewest_digits 17 m digits 1 in
      if digits <=? 21
      then sign ++ decimal_digits s ++ repeat 48 (Z.to_nat (digits - k))
      else
        sign ++ firstn 1 (decimal_digits s)
          ++ (if k =? 1 then [] else lit "." ++ skipn 1 (decimal_digits s))
          ++ lit "e+" ++ decimal_digits (digits - 1).

(** ToString, as a template literal [`${v}`] and the string [+] apply
    it. *)
Definition ToString (v : value) : jsstring :=
  match v with
  | VUndefined => lit "undefined"
  | VNull => lit "null"
  | VBool true => lit "true"
  | VBool false => lit "false"
  | VNum n => number_to_string n
  | VStr s => s
  | VObj _ => lit "[object Object]"
  end.

(** Property read [o[k]]: the first property named [k], [undefined] when
    there is none. *)
Fixpoint get (props : list (jsstring * value)) (k : jsstring) : value :=
  match props with
  | [] => VUndefined
  | (k', v) :: rest => if jsstring_eq_dec k k' then v else get rest k
  end.

(** The keys [for (const i in o)] enumerates. *)
Definition keys (props : list (jsstring * value)) : list jsstring :=
  map fst props.

(* ================================================================== *)
(** ** Node platform: Buffer and crypto *)
(* ================================================================== *)

Module Buffer.

(** A buffer is its sequence of bytes. *)
Definition t := list Z.

Definition is_high (c : Z) : bool := (0xD800 <=? c) && (c <=? 0xDBFF).
Definition is_low (c : Z) : bool := (0xDC00 <=? c) && (c <=? 0xDFFF).

(** UTF-8 bytes of one code point. *)
Definition encode (cp : Z) : list Z :=
  if cp <? 0x80 then [cp]
  else if cp <? 0x800 then
    [Z.lor 0xC0 (Z.shiftr cp 6); Z.lor 0x80 (Z.land cp 0x3F)]
  else if cp <? 0x10000 then
    [Z.lor 0xE0 (Z.shiftr cp 12);
     Z.lor 0x80 (Z.land (Z.shiftr cp 6) 0x3F);
     Z.lor 0x80 (Z.land cp 0x3F)]
  else
    [Z.lor 0xF0 (Z.shiftr cp 18);
     Z.lor 0x80 (Z.land (Z.shiftr cp 12) 0x3F);
     Z.lor 0x80 (Z.land (Z.shiftr cp 6) 0x3F);
     Z.lor 0x80 (Z.land cp 0x3F)].

(** U+FFFD, written for a surrogate that has no partner. *)
Definition replacement : list Z := [0xEF; 0xBF; 0xBD].

Definition pair_code_point (hi lo : Z) : Z :=
  0x10000 + Z.shiftl (hi - 0xD800) 10 + (lo - 0xDC00).

(** The string cut into characters, each with its UTF-8 bytes: a
    surrogate pair is one character of four bytes, a lone surrogate is
    written as U+FFFD. *)
Fixpoint utf8_chars (s : jsstring) : list (list Z) :=
  match s with
  | [] => []
  | c :: rest =>
      if is_high c then
        match rest with
        | d :: rest' =>
            if is_low d
            then encode (pair_code_point c d) :: utf8_chars rest'
            else replacement :: utf8_chars rest
        | [] => [replacement]
        end
      else if is_low c then replacement :: utf8_chars rest
      else encode c :: utf8_chars rest
  end.

Definition utf8 (s : jsstring) : list Z := List.concat (utf8_chars s).

(** [Buffer.byteLength(string)] for a string, the length in bytes of its
    UTF-8 encoding. *)
Definition byteLengthStr (s : jsstring) : Z := Z.of_nat (length (utf8 s)).

(** [Buffer.alloc(size, fill)] *)
Definition alloc (size : Z) (fill : Z) : t := repeat fill (Z.to_nat size).

(** The bytes [buf.write] copies into [room] bytes: whole characters
    from the front of the string for as long as they fit; a character
    that does not fit entirely is not written, and nothing after it. *)
Fixpoint fit (room : nat) (chars : list (list Z)) : list Z :=
  match chars with
  | [] => []
  | ch :: rest =>
      if (length ch <=? room)%nat
      then ch ++ fit (room - length ch) rest
      else []
  end.

(** [buf.write(string)] at offset 0: the written bytes replace the
    front of the buffer, the rest of the buffer is left as it was. *)
Definition write (buf : t) (s : jsstring) : t :=
  let written := fit (length buf) (utf8_chars s) in
  written ++ skipn (length written) buf.

(** A code unit of one byte in UTF-8. *)
Definition ascii_unit (c : Z) : Prop := 0 <= c < 0x80.

(** A Unicode code point. *)
Definition scalar (cp : Z) : Prop := 0 <= cp <= 0x10FFFF.

(** The code points of a string: a surrogate pair is one code point, a
    lone surrogate reads as U+FFFD. *)
Fixpoint code_points (s : jsstring) : list Z :=
  match s with
  | [] => []
  | c :: rest =>
      if is_high c then
        match rest with
        | d :: rest' =>
            if is_low d
            then pair_code_point c d :: code_points rest'
            else 0xFFFD :: code_points rest
        | [] => [0xFFFD]
        end
      else if is_low c then 0xFFFD :: code_points rest
      else c :: code_points rest
  end.

(** Well-formed UTF-16: code units within 16 bits, every surrogate in a
    pair. *)
Fixpoint well_formed (s : jsstring) : bool :=
  match s with
  | [] => true
  | c :: rest =>
      if is_high c then
        match rest with
        | d :: rest' => is_low d && well_formed rest'
        | [] => false
        end
      else if is_low c then false
      else (0 <=? c) && (c <=? 0xFFFF) && well_formed rest
  end.

(** Code units are 16 bits wide. *)
Definition in_range (s : jsstring) : Prop :=
  Forall (fun c => 0 <= c <= 0xFFFF) s.

End Buffer.

Module Crypto.

(** The accumulator of a constant-time memcmp: every pair of bytes is
    visited and the differences are OR-ed together. *)
Fixpoint diff_acc (a b : list Z) (acc : Z) : Z :=
  match a, b with
  | x :: a', y :: b' => diff_acc a' b' (Z.lor acc (Z.lxor x y))
  | _, _ => acc
  end.

(** Number of byte pairs the loop of [diff_acc] visits. *)
Fixpoint visited (a b : list Z) : nat :=
  match a, b with
  | _ :: a', _ :: b' => S (visited a' b')
  | _, _ => O
  end.

(** [crypto.timingSafeEqual(a, b)]: a RangeError when the byte lengths
    differ, otherwise whether no pair of bytes differs. *)
Definition timingSafeEqual (a b : Buffer.t) : result bool :=
  if (length a =? length b)%nat
  then Ret (diff_acc a b 0 =? 0)
  else Throw RangeError.

End Crypto.

(* ================================================================== *)
(** ** lib/index.js *)
(* ================================================================== *)

(** The request object [req], as far as this module is concerned: what
    the framework has put into it, and the [auth] property the middleware
    attaches, [{user, password}]. *)
Record request : Type := mkRequest {
  req_headers : list (jsstring * jsstring);
  req_params : list (jsstring * jsstring);
  req_auth : option (value * value)
}.

(** Anything that can be passed as an argument to a function of this
    module: plain data, the request object, or the completion callback. *)
Inductive jsany : Type :=
| AVal (v : value)
| AReq (r : request)
| ACallback.

(** [Buffer.byteLength(x)]: a TypeError unless [x] is a string. *)
Definition byteLength (x : jsany) : result Z :=
  match x with
  | AVal (VStr s) => Ret (Buffer.byteLengthStr s)
  | _ => Throw TypeError
  end.

(** [buf.write(x)]: a TypeError unless [x] is a string. *)
Definition buf_write (buf : Buffer.t) (x : jsany) : result Buffer.t :=
  match x with
  | AVal (VStr s) => Ret (Buffer.write buf s)
  | _ => Throw TypeError
  end.

(** The two buffers of [safeCompare]. *)
Record compare_buffers : Type := mkBuffers {
  userInputBuffer : Buffer.t;
  secretBuffer : Buffer.t
}.

(** [[
function safeCompare(userInput, secret) {
    const userInputLength = Buffer.byteLength(userInput);
    const secretLength = Buffer.byteLength(secret);
    const userInputBuffer = Buffer.alloc(userInputLength, 0, 'utf8');
    userInputBuffer.write(userInput);
    const secretBuffer = Buffer.alloc(userInputLength, 0, 'utf8');
    secretBuffer.write(secret);
    return !!(timingSafeEqual(userInputBuffer, secretBuffer)
              & userInputLength === secretLength);
}
]]
    [safeCompare_buffers] is the function up to its [return]: the two
    lengths and the two buffers as the last statement finds them.
    [===] binds tighter than [&], so the operands of [&] are the two
    booleans. *)
Definition safeCompare_buffers (userInput secret : jsany)
  : result (Z * Z * compare_buffers) :=
  let! userInputLength := byteLength userInput in
  let! secretLength := byteLength secret in
  let! userInputBuffer := buf_write (Buffer.alloc userInputLength 0) userInput in
  let! secretBuffer := buf_write (Buffer.alloc userInputLength 0) secret in
  Ret (userInputLength, secretLength, mkBuffers userInputBuffer secretBuffer).

Definition safeCompare (userInput secret : jsany) : result bool :=
  let! '(userInputLength, secretLength, bufs) :=
    safeCompare_buffers userInput secret in
  let! equal := Crypto.timingSafeEqual (userInputBuffer bufs) (secretBuffer bufs) in
  Ret (negb (Z.land (b2z equal) (b2z (userInputLength =? secretLength)) =? 0)).

(** *** Functions supplied by the caller of the module *)

(** What a caller-supplied function (authorizer, realm, response body)
    does when it is called, seen from this module: it returns a value, it
    throws, or it invokes the completion callback it was handed with
    [(err, approved)] and goes on from the outcome of that invocation. *)
Inductive behaviour : Type :=
| Return (v : value)
| Raise (e : exn)
| Invoke (err approved : value) (k : result value -> behaviour).

Definition jsfun : Type := list jsany -> behaviour.

(** A property of the options object: plain data or a function. *)
Inductive jsval : Type :=
| Val (v : value)
| Fun (f : jsfun).

Definition typeof_jsval (x : jsval) : jsstring :=
  match x with
  | Val v => typeof v
  | Fun _ => lit "function"
  end.

Definition truthy_jsval (x : jsval) : bool :=
  match x with
  | Val v => truthy v
  | Fun _ => true
  end.

(** [a || b] *)
Definition or_else (a b : jsval) : jsval := if truthy_jsval a then a else b.

(** The call [x(args)]: a TypeError when [x] is not a function. *)
Definition apply (x : jsval) (args : list jsany) : behaviour :=
  match x with
  | Fun f => f args
  | Val _ => Raise TypeError
  end.

(** Running a call that was handed no callback: an attempt to invoke one
    is the call of [undefined], a TypeError at that point of the
    function. *)
Fixpoint run_plain (t : behaviour) : result value :=
  match t with
  | Return v => Ret v
  | Raise e => Throw e
  | Invoke _ _ k => run_plain (k (Throw TypeError))
  end.

(** [assert(cond, message)] *)
Definition assert (cond : bool) (message : jsstring) : result unit :=
  if cond then Ret tt else Throw (AssertionError message).

(** [assert.ifError(err)]: throws unless [err] is [null] or [undefined]. *)
Definition ifError (err : value) : result unit :=
  match err with
  | VUndefined | VNull => Ret tt
  | _ => Throw (IfError err)
  end.

(** [[
function ensureFunction(option, defaultValue) {
    if (option === undefined) { return () => defaultValue; }
    if (typeof option !== 'function') { return () => option; }
    return option;
}
]] *)
Definition ensureFunction (option : jsval) (defaultValue : value) : jsfun :=
  match option with
  | Val VUndefined => fun _ => Return defaultValue
  | Val v => fun _ => Return v
  | Fun f => f
  end.

(** The argument at position [n] of a call, [undefined] when the call
    has fewer arguments. *)
Definition argument (n : nat) (args : list jsany) : jsany :=
  nth n args (AVal VUndefined).

(** [[
function staticUsersAuthorizer(username, password) {
    let authorized = false;
    for (const i in users) {
        authorized |= safeCompare(username, i) & safeCompare(password, users[i]);
    }
    return authorized;
}
]]
    Next to its result the loop hands back the list of the calls of
    [safeCompare] it has made, in order. *)
Definition comparison : Type := (jsany * jsany)%type.

Fixpoint for_in_users (users : list (jsstring * value)) (username password : jsany)
    (remaining : list jsstring) (authorized : value) (calls : list comparison)
  : list comparison * result value :=
  match remaining with
  | [] => (calls, Ret authorized)
  | i :: rest =>
      let calls1 := calls ++ [(username, AVal (VStr i))] in
      match safeCompare username (AVal (VStr i)) with
      | Throw e => (calls1, Throw e)
      | Ret matchesUser =>
          let calls2 := calls1 ++ [(password, AVal (get users i))] in
          match safeCompare password (AVal (get users i)) with
          | Throw e => (calls2, Throw e)
          | Ret matchesPassword =>
              for_in_users users username password rest
                (VNum (Z.lor (ToInt32 authorized)
                         (Z.land (b2z matchesUser) (b2z matchesPassword))))
                calls2
          end
      end
  end.

(** The properties [for ... in] enumerates on [users]; by the assertion
    of [buildMiddleware], [users] is an object. *)
Definition enumerable (users : jsval) : list (jsstring * value) :=
  match users with
  | Val (VObj props) => props
  | _ => []
  end.

Definition staticUsersAuthorizer_calls (users : jsval) (username password : jsany)
  : list comparison * result value :=
  let authorized := VBool false in
  for_in_users (enumerable users) username password
    (keys (enumerable users)) authorized [].

Definition staticUsersAuthorizer (users : jsval) : jsfun :=
  fun args =>
    match snd (staticUsersAuthorizer_calls users (argument 0 args) (argument 1 args)) with
    | Ret authorized => Return authorized
    | Throw e => Raise e
    end.

(** The options object handed to [buildMiddleware]; a property that is
    not given is [Val VUndefined]. *)
Module Options.
Record t : Type := make {
  challenge : jsval;
  users : jsval;
  authorizer : jsval;
  authorizeAsync : jsval;
  passRequest : jsval;
  allowEmptyCredentials : jsval;
  unauthorizedResponse : jsval;
  realm : jsval
}.

(** [{}] *)
Definition empty : t :=
  make (Val VUndefined) (Val VUndefined) (Val VUndefined) (Val VUndefined)
       (Val VUndefined) (Val VUndefined) (Val VUndefined) (Val VUndefined).
End Options.

(** The constants of [buildMiddleware]'s scope, which the returned
    [authMiddleware] closes over. *)
Record middleware : Type := mkMiddleware {
  challenge : bool;
  users : jsval;
  authorizer : jsval;
  isAsync : bool;
  passRequest : bool;
  allowEmptyCredentials : bool;
  getResponseBody : jsfun;
  realm : jsfun
}.

Definition users_message (users : jsval) : jsstring :=
  lit "Expected an object for the basic auth users, found "
    ++ typeof_jsval users ++ lit " instead".

Definition authorizer_message (authorizer : jsval) : jsstring :=
  lit "Expected a function for the basic auth authorizer, found "
    ++ typeof_jsval authorizer ++ lit " instead".

Definition jsstring_eqb (a b : jsstring) : bool :=
  if jsstring_eq_dec a b then true else false.

(** [[
function buildMiddleware(options) {
    const challenge = !!options.challenge;
    const users = options.users || {};
    const authorizer = options.authorizer || staticUsersAuthorizer;
    const isAsync = !!options.authorizeAsync;
    const passRequest = !!options.passRequest;
    const allowEmptyCredentials = !!options.allowEmptyCredentials;
    const getResponseBody = ensureFunction(options.unauthorizedResponse, '');
    const realm = ensureFunction(options.realm);
    assert(typeof users === 'object', `Expected an object ...`);
    assert(typeof authorizer === 'function', `Expected a function ...`);
    ...
    return function authMiddleware(req, res, next) { ... };
}
]] *)
Definition buildMiddleware (options : Options.t) : result middleware :=
  let challenge := truthy_jsval (Options.challenge options) in
  let users := or_else (Options.users options) (Val (VObj [])) in
  let authorizer :=
    or_else (Options.authorizer options) (Fun (staticUsersAuthorizer users)) in
  let isAsync := truthy_jsval (Options.authorizeAsync options) in
  let passRequest := truthy_jsval (Options.passRequest options) in
  let allowEmptyCredentials :=
    truthy_jsval (Options.allowEmptyCredentials options) in
  let getResponseBody :=
    ensureFunction (Options.unauthorizedResponse options) (VStr []) in
  let realm := ensureFunction (Options.realm options) VUndefined in
  let! _ := assert (jsstring_eqb (typeof_jsval users) (lit "object"))
                   (users_message users) in
  let! _ := assert (jsstring_eqb (typeof_jsval authorizer) (lit "function"))
                   (authorizer_message authorizer) in
  Ret (mkMiddleware challenge users authorizer isAsync passRequest
         allowEmptyCredentials getResponseBody realm).

(** *** The request-time world: the request object, the response and
    the pipeline *)

(** What the middleware does to its surroundings, in order: the calls on
    the response object [res], the call of [next], and the calls of the
    authorizer with their arguments. *)
Inductive event : Type :=
| EvAuthorize (args : list jsany)          (* authorizer(args) *)
| EvSet (field val : jsstring)             (* res.set(field, val) *)
| EvStatus (code : Z)                      (* res.status(code) *)
| EvSend (body : jsstring)                 (* .send(body) *)
| EvJson (body : value)                    (* .json(body) *)
| EvNext.                                  (* next() *)

Record state : Type := mkState {
  st_req : request;          (* the request object [req], mutable *)
  st_log : list event
}.

(** Computations of the middleware: they read and update the state and
    either return or throw; what was done before a throw stays done. *)
Definition M (A : Type) : Type := state -> state * result A.

Definition ret {A} (a : A) : M A := fun st => (st, Ret a).
Definition bind {A B} (c : M A) (k : A -> M B) : M B :=
  fun st =>
    match c st with
    | (st', Ret a) => k a st'
    | (st', Throw e) => (st', Throw e)
    end.
Definition lift {A} (r : result A) : M A := fun st => (st, r).
Definition emit (e : event) : M unit :=
  fun st => (mkState (st_req st) (st_log st ++ [e]), Ret tt).
Definition get_req : M request := fun st => (st, Ret (st_req st)).

Notation "x <- c ;; k" := (bind c (fun x => k))
  (at level 61, c at next level, right associativity) : js_scope.
Notation "c ;; k" := (bind c (fun _ => k))
  (at level 61, right associativity) : js_scope.

(** [req.auth = {user: name, password: pass}] *)
Definition set_req_auth (name pass : value) : M unit :=
  fun st =>
    let r := st_req st in
    (mkState (mkRequest (req_headers r) (req_params r) (Some (name, pass)))
             (st_log st),
     Ret tt).

(** Running a call that was handed the callback [cb]: each invocation
    runs [cb], and the function goes on from what [cb] returned or
    threw. *)
Fixpoint run_with (cb : value -> value -> M value) (t : behaviour) : M value :=
  fun st =>
    match t with
    | Return v => (st, Ret v)
    | Raise e => (st, Throw e)
    | Invoke err approved k =>
        let (st', r) := cb err approved st in
        run_with cb (k r) st'
    end.

Definition www_authenticate : jsstring := lit "WWW-Authenticate".

(** [.send(body)] for a string, [.json(body)] for anything else. *)
Definition body_event (response : value) : event :=
  match response with
  | VStr body => EvSend body
  | _ => EvJson response
  end.

(** The request once the credentials are attached. *)
Definition attach (req : request) (name pass : value) : request :=
  mkRequest (req_headers req) (req_params req) (Some (name, pass)).

(** [authentication ? authentication : {name: null, pass: null}]: the
    credentials of the header, or [null] and [null]. *)
Definition credentials (authentication : option (jsstring * jsstring))
  : value * value :=
  match authentication with
  | Some (name, pass) => (VStr name, VStr pass)
  | None => (VNull, VNull)
  end.

(** The arguments the middleware calls the authorizer with. *)
Definition authorizer_args (auth : request -> option (jsstring * jsstring))
    (mw : middleware) (req : request) : list jsany :=
  let '(name, pass) := credentials (auth req) in
  (if passRequest mw then [AReq (attach req name pass)] else [])
    ++ [AVal name; AVal pass]
    ++ (if isAsync mw then [ACallback] else []).

Definition is_some {A} (o : option A) : bool :=
  match o with Some _ => true | None => false end.

Section Middleware.

(** [auth(req)], the parser of the [basic-auth] package: the name and
    the password of the request's Authorization header, nothing when the
    header is missing or malformed. *)
Variable auth : request -> option (jsstring * jsstring).

(** The scope of [buildMiddleware] in which [authMiddleware] was
    created. *)
Variable mw : middleware.

(** [next()]; what the rest of the pipeline returns is not looked at by
    any caller, it is [undefined] here. *)
Definition next : M value := emit EvNext ;; ret VUndefined.

(** The template literal and the conditional of [unauthorized]. *)
Definition challengeString (realmName : value) : jsstring :=
  if truthy realmName
  then lit "Basic realm=" ++ dquote ++ ToString realmName ++ dquote
  else lit "Basic".

(** [[
      function unauthorized () {
          if (challenge) {
              const realmName = realm(req);
              const challengeString = (realmName)
                  ? `Basic realm="${realmName}"`
                  : 'Basic';
              res.set('WWW-Authenticate', challengeString);
          }
          const response = getResponseBody(req);
          if (typeof response === 'string') {
              return res.status(401).send(response);
          }
          return res.status(401).json(response);
      }
]]
    The calls on [res] return [res]; no caller looks at it, the value
    handed back here is [undefined]. *)
Definition unauthorized : M value :=
  req <- get_req ;;
  (if challenge mw then
     realmName <- lift (run_plain (realm mw [AReq req])) ;;
     emit (EvSet www_authenticate (challengeString realmName))
   else ret tt) ;;
  response <- lift (run_plain (getResponseBody mw [AReq req])) ;;
  match response with
  | VStr body => emit (EvStatus 401) ;; emit (EvSend body) ;; ret VUndefined
  | _ => emit (EvStatus 401) ;; emit (EvJson response) ;; ret VUndefined
  end.

(** [[
      function authorizerCallback(err, approved) {
          assert.ifError(err);
          if (approved) { return next(); }
          return unauthorized();
      }
]] *)
Definition authorizerCallback (err approved : value) : M value :=
  lift (ifError err) ;;
  if truthy approved then next else unauthorized.

(** [[
  return function authMiddleware(req, res, next) {
      const authentication = auth(req);
      const {name, pass} = authentication
          ? authentication
          : {name: null, pass: null};
      if (!authentication && !allowEmptyCredentials) {
          return unauthorized();
      }
      req.auth = {user: name, password: pass};
      if (isAsync) {
          return passRequest
              ? authorizer(req, name, pass, authorizerCallback)
              : authorizer(name, pass, authorizerCallback);
      }
      if (passRequest) {
          if (!authorizer(req, name, pass)) { return unauthorized(); }
      } else {
          if (!authorizer(name, pass)) { return unauthorized(); }
      }
      return next();
      ...
  };
]]
    [call_sync] and [call_async] are the calls of the authorizer, each
    recorded in the log with its arguments. *)
Definition call_sync (args : list jsany) : M value :=
  emit (EvAuthorize args) ;; lift (run_plain (apply (authorizer mw) args)).

Definition call_async (args : list jsany) : M value :=
  emit (EvAuthorize args) ;;
  run_with authorizerCallback (apply (authorizer mw) args).

Definition authMiddleware : M value :=
  req <- get_req ;;
  let authentication := auth req in
  let '(name, pass) := credentials authentication in
  if negb (is_some authentication) && negb (allowEmptyCredentials mw) then
    unauthorized
  else
    set_req_auth name pass ;;
    req <- get_req ;;
    if isAsync mw then
      if passRequest mw
      then call_async [AReq req; AVal name; AVal pass; ACallback]
      else call_async [AVal name; AVal pass; ACallback]
    else if passRequest mw then
      verdict <- call_sync [AReq req; AVal name; AVal pass] ;;
      if negb (truthy verdict) then unauthorized else next
    else
      verdict <- call_sync [AVal name; AVal pass] ;;
      if negb (truthy verdict) then unauthorized else next.

(** One request through the middleware: nothing has been done to the
    response yet. *)
Definition handle (req : request) : state * result value :=
  authMiddleware (mkState req []).

(** What [unauthorized] adds to the log, when the realm and the body
    producers return. *)
Definition denial_events (realmName response : value) : list event :=
  (if challenge mw
   then [EvSet www_authenticate (challengeString realmName)]
   else [])
  ++ [EvStatus 401; body_event response].

(** The middleware once it goes on to the authorizer: the credentials
    are attached, the authorizer is called, and the rest depends on the
    mode. *)
Definition asked (req : request) : state :=
  let '(name, pass) := credentials (auth req) in
  mkState (attach req name pass) [EvAuthorize (authorizer_args auth mw req)].

End Middleware.

(** A realm as the options document it: a string, or nothing. *)
Definition optional_string (v : value) : bool :=
  match v with
  | VUndefined | VNull | VStr _ => true
  | _ => false
  end.

(** The challenge for such a realm: [Basic realm="<realm>"] around a
    string that is not empty, [Basic] otherwise. *)
Definition basic_challenge (realmName : value) : jsstring :=
  match realmName with
  | VStr (c :: s) => lit "Basic realm=" ++ dquote ++ (c :: s) ++ dquote
  | _ => lit "Basic"
  end.

(** The request as [unauthorized] finds it when the request is denied:
    as it came when the denial is immediate, with the credentials attached
    when the authorizer was asked. *)
Definition request_seen (auth : request -> option (jsstring * jsstring))
    (mw : middleware) (req : request) : request :=
  if negb (is_some (auth req)) && negb (allowEmptyCredentials mw)
  then req
  else st_req (asked auth mw req).

(** A string passed as an argument. *)
Definition str (s : jsstring) : jsany := AVal (VStr s).

Definition is_string (x : jsany) : bool :=
  match x with
  | AVal (VStr _) => true
  | _ => false
  end.

(** What a run of [safeCompare] looks like from outside its data: the
    sizes of the two buffers and the number of byte pairs the equality
    check goes through. *)
Definition shape (userInput secret : jsany) : result (nat * nat * nat) :=
  let! '(_, _, bufs) := safeCompare_buffers userInput secret in
  Ret (length (userInputBuffer bufs), length (secretBuffer bufs),
       Crypto.visited (userInputBuffer bufs) (secretBuffer bufs)).

(** Whether two strings have the same UTF-8 bytes. *)
Definition same_bytes (a b : jsstring) : bool :=
  if list_eq_dec Z.eq_dec (Buffer.utf8 a) (Buffer.utf8 b) then true else false.

(** The table maps user names to passwords that are strings. *)
Definition passwords_are_strings (table : list (jsstring * value)) : bool :=
  forallb (fun i => match get table i with VStr _ => true | _ => false end)
          (keys table).

(** The names and the passwords of the table are well-formed strings. *)
Definition well_formed_table (table : list (jsstring * value)) : bool :=
  forallb (fun i =>
             Buffer.well_formed i
             && match get table i with
                | VStr stored => Buffer.well_formed stored
                | _ => false
                end)
          (keys table).

(** The entry named [i] of the table matches the given credentials. *)
Definition entry_matches (table : list (jsstring * value))
    (username password i : jsstring) : bool :=
  same_bytes username i
  && match get table i with
     | VStr stored => same_bytes password stored
     | _ => false
     end.

(** One turn of the loop on the accumulator, when both comparisons
    return. *)
Definition or_step (table : list (jsstring * value))
    (username password : jsstring) (authorized : value) (i : jsstring) : value :=
  VNum (Z.lor (ToInt32 authorized)
              (b2z (entry_matches table username password i))).

Definition calls_of (table : list (jsstring * value))
    (username password : jsstring) (i : jsstring) : list comparison :=
  [(str username, str i); (str password, AVal (get table i))].

(** The accumulator is [false], 0 or 1 all along. *)
Definition flag (v : value) : Prop := v = VBool false \/ v = VNum 0 \/ v = VNum 1.

(** The table and the requests of the test suite. *)
Definition admin_table : list (jsstring * value) :=
  [(lit "Admin", VStr (lit "secret1234"))].

(** Observations on the log. *)
Definition is_next (e : event) : bool :=
  match e with EvNext => true | _ => false end.

Definition is_authorize (e : event) : bool :=
  match e with EvAuthorize _ => true | _ => false end.

Definition is_status (code : Z) (e : event) : bool :=
  match e with EvStatus c => c =? code | _ => false end.

(** The calls that send a body. *)
Definition is_body (e : event) : bool :=
  match e with EvSend _ | EvJson _ => true | _ => false end.

(** The calls on the response object. *)
Definition is_response_event (e : event) : bool :=
  match e with
  | EvSet _ _ | EvStatus _ | EvSend _ | EvJson _ => true
  | EvAuthorize _ | EvNext => false
  end.

(** How many times [next] was called. *)
Definition count_next (log : list event) : nat := length (filter is_next log).

(** The headers set on the response, in order. *)
Fixpoint headers_of (log : list event) : list (jsstring * jsstring) :=
  match log with
  | [] => []
  | EvSet field val :: rest => (field, val) :: headers_of rest
  | _ :: rest => headers_of rest
  end.

(** An error in the sense of [assert.ifError]: neither [null] nor
    [undefined]. *)
Definition is_error (err : value) : bool :=
  match err with
  | VUndefined | VNull => false
  | _ => true
  end.

(** The contract of an asynchronous authorizer, as far as the
    middleware depends on it: once it has invoked the callback it does
    not invoke it again. *)
Definition no_callback (t : behaviour) : Prop :=
  match t with
  | Invoke _ _ _ => False
  | _ => True
  end.

Definition calls_back_at_most_once (t : behaviour) : Prop :=
  match t with
  | Invoke _ _ k => forall r, no_callback (k r)
  | _ => True
  end.

(** The answer of the authorizer: [Some true] when it approves,
    [Some false] when it refuses, nothing when it gives no answer (it
    throws, reports an error or never invokes the callback). *)
Definition answer (mw : middleware) (args : list jsany) : option bool :=
  if isAsync mw then
    match apply (authorizer mw) args with
    | Invoke err approved _ =>
        if is_error err then None else Some (truthy approved)
    | _ => None
    end
  else
    match run_plain (apply (authorizer mw) args) with
    | Ret verdict => Some (truthy verdict)
    | Throw _ => None
    end.

Inductive decision : Type := Allow | Deny.

(** The decision for a request (section 4.2 of the specification):
    denied without asking when there are no credentials and empty
    credentials are not allowed, otherwise what the authorizer answers. *)
Definition decide (auth : request -> option (jsstring * jsstring))
    (mw : middleware) (req : request) : option decision :=
  if negb (is_some (auth req)) && negb (allowEmptyCredentials mw) then Some Deny
  else
    match answer mw (authorizer_args auth mw req) with
    | Some true => Some Allow
    | Some false => Some Deny
    | None => None
    end.

(** Configurations and requests of the test suite, for the examples. *)
Definition no_options : Options.t := Options.empty.

Definition with_challenge_realm (realmOption : jsval) : Options.t :=
  Options.make (Val (VBool true)) (Val VUndefined) (Val VUndefined)
    (Val VUndefined) (Val VUndefined) (Val VUndefined) (Val VUndefined)
    realmOption.

Definition with_body (body : jsval) : Options.t :=
  Options.make (Val VUndefined) (Val VUndefined) (Val VUndefined)
    (Val VUndefined) (Val VUndefined) (Val VUndefined) body
    (Val VUndefined).

(** The middleware of an options object, when it can be built. *)
Definition built (options : Options.t) : middleware :=
  match buildMiddleware options with
  | Ret mw => mw
  | Throw _ =>
      mkMiddleware false (Val (VObj [])) (Val VUndefined) false false false
        (fun _ => Return VUndefined) (fun _ => Return VUndefined)
  end.

(** A request without an Authorization header. *)
Definition bare_request : request := mkRequest [] [] None.

(** A parser that finds no credentials, and one that finds the given
    ones. *)
Definition no_credentials : request -> option (jsstring * jsstring) :=
  fun _ => None.

Definition found (name pass : jsstring)
  : request -> option (jsstring * jsstring) :=
  fun _ => Some (name, pass).

(** The authorizers of the test suite. *)
Definition is_null (x : jsany) : bool :=
  match x with AVal VNull => true | _ => false end.

(** [[
function emptyCredentialsAuthorizer(username, password) {
    return username === null && password === null;
}
]] *)
Definition emptyCredentialsAuthorizer : jsfun :=
  fun args => Return (VBool (is_null (argument 0 args) && is_null (argument 1 args))).

Fixpoint startsWith (s searchString : jsstring) : bool :=
  match searchString, s with
  | [], _ => true
  | _ :: _, [] => false
  | c :: searchString', d :: s' => (c =? d) && startsWith s' searchString'
  end.

(** [[
function myAuthorizer(username, password) {
    return username.startsWith('A') && password.startsWith('secret');
}
]] *)
Definition myAuthorizer (username password : jsany) : result value :=
  match username with
  | AVal (VStr u) =>
      if startsWith u (lit "A") then
        match password with
        | AVal (VStr p) => Ret (VBool (startsWith p (lit "secret")))
        | _ => Throw TypeError
        end
      else Ret (VBool false)
  | _ => Throw TypeError
  end.

(** [return cb(...)]: the function ends with what the callback returned
    or threw. *)
Definition tail_call (r : result value) : behaviour :=
  match r with
  | Ret v => Return v
  | Throw e => Raise e
  end.

(** [[
function myAsyncAuthorizer(username, password, cb) {
    return cb(null, myAuthorizer(username, password));
}
]] *)
Definition myAsyncAuthorizer : jsfun :=
  fun args =>
    match myAuthorizer (argument 0 args) (argument 1 args) with
    | Ret approved => Invoke VNull approved tail_call
    | Throw e => Raise e
    end.

(** An asynchronous authorizer that reports an error. *)
Definition failingAuthorizer (err : value) : jsfun :=
  fun _ => Invoke err VUndefined tail_call.

(** An asynchronous authorizer that calls back twice. *)
Definition twiceAuthorizer : jsfun :=
  fun _ => Invoke VNull (VBool true)
             (fun _ => Invoke VNull (VBool true) tail_call).

Definition emptyCredentialsAuth : Options.t :=
  Options.make (Val VUndefined) (Val VUndefined)
    (Fun emptyCredentialsAuthorizer) (Val VUndefined) (Val VUndefined)
    (Val (VBool true)) (Val VUndefined) (Val VUndefined).

Definition async_with (authorizer : jsfun) : Options.t :=
  Options.make (Val VUndefined) (Val VUndefined) (Fun authorizer)
    (Val (VBool true)) (Val VUndefined) (Val VUndefined) (Val VUndefined)
    (Val VUndefined).

Definition staticUserAuth (allowEmpty : value) : Options.t :=
  Options.make (Val (VBool false)) (Val (VObj admin_table)) (Val VUndefined)
    (Val VUndefined) (Val VUndefined) (Val allowEmpty) (Val VUndefined)
    (Val VUndefined).

(** What [buildMiddleware] rejects: a [users] option that is truthy and
    not of type object, or an [authorizer] option that is truthy and not a
    function. *)
Definition rejected (options : Options.t) : bool :=
  (truthy_jsval (Options.users options)
   && negb (jsstring_eqb (typeof_jsval (Options.users options)) (lit "object")))
  || (truthy_jsval (Options.authorizer options)
      && negb (jsstring_eqb (typeof_jsval (Options.authorizer options))
                 (lit "function"))).

Definition with_users (users : jsval) : Options.t :=
  Options.make (Val VUndefined) users (Val VUndefined) (Val VUndefined)
    (Val VUndefined) (Val VUndefined) (Val VUndefined) (Val VUndefined).

Definition with_authorizer (authorizer : jsval) : Options.t :=
  Options.make (Val VUndefined) (Val VUndefined) authorizer (Val VUndefined)
    (Val VUndefined) (Val VUndefined) (Val VUndefined) (Val VUndefined).

(** *** More of the test suite, and what the further properties speak of *)

(** [[
function myComparingAuthorizer(username, password) {
    return (
        basicAuth.safeCompare(username, 'Testeroni') &
        basicAuth.safeCompare(password, 'testsecret')
    );
}
]] *)
Definition myComparingAuthorizer : jsfun :=
  fun args =>
    match safeCompare (argument 0 args) (str (lit "Testeroni")) with
    | Throw e => Raise e
    | Ret matchesUser =>
        match safeCompare (argument 1 args) (str (lit "testsecret")) with
        | Throw e => Raise e
        | Ret matchesPassword =>
            Return (VNum (Z.land (b2z matchesUser) (b2z matchesPassword)))
        end
    end.

(** The property read [v.k] on data that is neither [null] nor
    [undefined]: a property of an object, [undefined] on a primitive. *)
Definition property (v : value) (k : jsstring) : value :=
  match v with
  | VObj props => get props k
  | _ => VUndefined
  end.

(** ['Credentials ' + user + ':' + password + ' rejected'] *)
Definition rejected_message (user password : value) : jsstring :=
  lit "Credentials " ++ ToString user ++ lit ":" ++ ToString password
    ++ lit " rejected".

(** [[
function getUnauthorizedResponse(req) {
    return req.auth
        ? ('Credentials ' + req.auth.user + ':' + req.auth.password + ' rejected')
        : 'No credentials provided';
}
]]
    On the request object [req.auth] is the attached object or nothing;
    reading [auth] off [undefined] or [null] is a TypeError. *)
Definition getUnauthorizedResponse : jsfun :=
  fun args =>
    match argument 0 args with
    | AReq r =>
        match req_auth r with
        | Some (user, password) => Return (VStr (rejected_message user password))
        | None => Return (VStr (lit "No credentials provided"))
        end
    | AVal VUndefined | AVal VNull => Raise TypeError
    | AVal v =>
        let auth := property v (lit "auth") in
        if truthy auth
        then Return (VStr (rejected_message (property auth (lit "user"))
                             (property auth (lit "password"))))
        else Return (VStr (lit "No credentials provided"))
    | ACallback => Return (VStr (lit "No credentials provided"))
    end.

(** The two assertions of [buildMiddleware], read on the options. *)
Definition users_at_fault (options : Options.t) : bool :=
  truthy_jsval (Options.users options)
  && negb (jsstring_eqb (typeof_jsval (Options.users options)) (lit "object")).

Definition authorizer_at_fault (options : Options.t) : bool :=
  truthy_jsval (Options.authorizer options)
  && negb (jsstring_eqb (typeof_jsval (Options.authorizer options))
             (lit "function")).

(** The constants [buildMiddleware] computes before its assertions. *)
Definition closure (options : Options.t) : middleware :=
  let users := or_else (Options.users options) (Val (VObj [])) in
  mkMiddleware
    (truthy_jsval (Options.challenge options))
    users
    (or_else (Options.authorizer options) (Fun (staticUsersAuthorizer users)))
    (truthy_jsval (Options.authorizeAsync options))
    (truthy_jsval (Options.passRequest options))
    (truthy_jsval (Options.allowEmptyCredentials options))
    (ensureFunction (Options.unauthorizedResponse options) (VStr []))
    (ensureFunction (Options.realm options) VUndefined).

(** The body sent for a constant [unauthorizedResponse] option: the
    option itself, the empty string when it is [undefined]. *)
Definition constant_body (option : value) : value :=
  match option with
  | VUndefined => VStr []
  | _ => option
  end.

(** How many times the authorizer was called. *)
Definition count_authorize (log : list event) : nat :=
  length (filter is_authorize log).

(** The middleware goes on to the authorizer. *)
Definition asks (auth : request -> option (jsstring * jsstring))
    (mw : middleware) (req : request) : bool :=
  is_some (auth req) || allowEmptyCredentials mw.

(** Some entry of the table matches the credentials. *)
Definition table_matches (table : list (jsstring * value))
    (username password : jsstring) : bool :=
  existsb (entry_matches table username password) (keys table).

(** A table with a password that is a number. *)
Definition numeric_password_table : list (jsstring * value) :=
  [(lit "Admin", VStr (lit "secret1234")); (lit "guest", VNum 1234)].

Definition customCompareAuth : Options.t :=
  with_authorizer (Fun myComparingAuthorizer).

Definition customBodyAuth : Options.t :=
  Options.make (Val VUndefined)
    (Val (VObj [(lit "Foo", VStr (lit "bar"))])) (Val VUndefined)
    (Val VUndefined) (Val VUndefined) (Val VUndefined)
    (Fun getUnauthorizedResponse) (Val VUndefined).

Definition static_async : Options.t :=
  Options.make (Val VUndefined) (Val (VObj admin_table)) (Val VUndefined)
    (Val (VBool true)) (Val VUndefined) (Val VUndefined) (Val VUndefined)
    (Val VUndefined).

Definition static_with_request : Options.t :=
  Options.make (Val VUndefined) (Val (VObj admin_table)) (Val VUndefined)
    (Val VUndefined) (Val (VBool true)) (Val VUndefined) (Val VUndefined)
    (Val VUndefined).

(** A synchronous authorizer that throws on [null] credentials, as
    [myAuthorizer] does. *)
Definition customAuthorizer : jsfun :=
  fun args => tail_call (myAuthorizer (argument 0 args) (argument 1 args)).

Definition custom_allowing_empty : Options.t :=
  Options.make (Val VUndefined) (Val VUndefined) (Fun customAuthorizer)
    (Val VUndefined) (Val VUndefined) (Val (VBool true)) (Val VUndefined)
    (Val VUndefined).

(* ================================================================== *)
(** ** Properties of the platform model *)
(* ================================================================== *)

Module BufferFacts.
Import Buffer.

Lemma fit_length (chars : list (list Z)) :
  forall room, (length (fit room chars) <= room)%nat.
Proof.
  induction chars as [|ch rest IH]; intros room; simpl; [lia|].
  destruct (length ch <=? room)%nat eqn:E; simpl; [|lia].
  apply Nat.leb_le in E.
  rewrite length_app. specialize (IH (room - length ch)%nat). lia.
Qed.

Lemma fit_all (chars : list (list Z)) :
  forall room, (length (concat chars) <= room)%nat ->
               fit room chars = concat chars.
Proof.
  induction chars as [|ch rest IH]; intros room H; simpl in *; [reflexivity|].
  rewrite length_app in H.
  destruct (length ch <=? room)%nat eqn:E.
  - rewrite IH by lia. reflexivity.
  - apply Nat.leb_gt in E. lia.
Qed.

Lemma fit_prefix (chars : list (list Z)) :
  forall room, exists rest, concat chars = fit room chars ++ rest.
Proof.
  induction chars as [|ch rest IH]; intros room; simpl.
  - exists []. reflexivity.
  - destruct (length ch <=? room)%nat.
    + destruct (IH (room - length ch)%nat) as [tl Htl].
      exists tl. rewrite Htl, app_assoc. reflexivity.
    + exists (ch ++ concat rest). reflexivity.
Qed.

(** A string of one-byte characters is cut at exactly [room] bytes. *)
Lemma fit_single_bytes (chars : list (list Z)) :
  Forall (fun ch => length ch = 1%nat) chars ->
  forall room, fit room chars = firstn room (concat chars).
Proof.
  induction 1 as [|ch rest Hch _ IH]; intros room; simpl.
  - now rewrite firstn_nil.
  - destruct ch as [|x [|y ch']]; try discriminate. simpl.
    destruct room as [|room]; simpl; [reflexivity|].
    rewrite IH, Nat.sub_0_r. reflexivity.
Qed.

Lemma write_length (buf : t) (s : jsstring) :
  length (write buf s) = length buf.
Proof.
  unfold write.
  pose proof (fit_length (utf8_chars s) (length buf)).
  rewrite length_app, length_skipn. lia.
Qed.

Lemma alloc_length (size fill : Z) :
  length (alloc size fill) = Z.to_nat size.
Proof. unfold alloc. apply repeat_length. Qed.

Lemma skipn_repeat {A} (x : A) (n m : nat) :
  skipn n (repeat x m) = repeat x (m - n).
Proof.
  revert m. induction n as [|n IH]; intros m; simpl.
  - now rewrite Nat.sub_0_r.
  - destruct m; simpl; [reflexivity | apply IH].
Qed.

(** Writing into a fresh zero-filled buffer: the bytes that fit,
    followed by zeros. *)
Lemma write_alloc (size : Z) (s : jsstring) :
  write (alloc size 0) s =
    fit (Z.to_nat size) (utf8_chars s)
      ++ repeat 0 (Z.to_nat size - length (fit (Z.to_nat size) (utf8_chars s))).
Proof.
  unfold write. rewrite alloc_length. unfold alloc.
  now rewrite skipn_repeat.
Qed.

(** A string that fits is written entirely. *)
Lemma write_alloc_fits (size : Z) (s : jsstring) :
  byteLengthStr s <= size ->
  write (alloc size 0) s =
    utf8 s ++ repeat 0 (Z.to_nat size - length (utf8 s)).
Proof.
  intros H. rewrite write_alloc.
  rewrite fit_all; [reflexivity|].
  unfold byteLengthStr, utf8 in H. lia.
Qed.

Lemma write_alloc_exact (s : jsstring) :
  write (alloc (byteLengthStr s) 0) s = utf8 s.
Proof.
  rewrite write_alloc_fits by lia.
  unfold byteLengthStr. rewrite Nat2Z.id, Nat.sub_diag. simpl.
  apply app_nil_r.
Qed.

Lemma encode_length_pos (cp : Z) : (1 <= length (encode cp))%nat.
Proof.
  unfold encode.
  destruct (cp <? 0x80); [simpl; lia|].
  destruct (cp <? 0x800); [simpl; lia|].
  destruct (cp <? 0x10000); simpl; lia.
Qed.

Lemma ascii_not_surrogate (c : Z) :
  ascii_unit c -> is_high c = false /\ is_low c = false.
Proof.
  unfold ascii_unit, is_high, is_low. intros H.
  split; apply andb_false_iff; left; apply Z.leb_gt; lia.
Qed.

Lemma encode_ascii (c : Z) : ascii_unit c -> encode c = [c].
Proof.
  unfold ascii_unit, encode. intros H.
  destruct (c <? 0x80) eqn:E; [reflexivity|].
  apply Z.ltb_ge in E. lia.
Qed.

Lemma utf8_chars_cons (x : Z) (rest : jsstring) :
  utf8_chars (x :: rest) =
    if is_high x then
      match rest with
      | d :: rest' =>
          if is_low d
          then encode (pair_code_point x d) :: utf8_chars rest'
          else replacement :: utf8_chars rest
      | [] => [replacement]
      end
    else if is_low x then replacement :: utf8_chars rest
    else encode x :: utf8_chars rest.
Proof. reflexivity. Qed.

(** Appending a code unit that is not a surrogate never changes how
    the string before it is cut into characters. *)
Lemma utf8_chars_snoc (c : Z) :
  is_high c = false -> is_low c = false ->
  forall n s, (length s <= n)%nat ->
    utf8_chars (s ++ [c]) = utf8_chars s ++ [encode c].
Proof.
  intros Hh Hl.
  assert (H1 : utf8_chars [c] = [encode c])
    by (rewrite utf8_chars_cons, Hh, Hl; reflexivity).
  induction n as [|n IH]; intros s Hlen.
  - destruct s; simpl in Hlen; [exact H1 | lia].
  - destruct s as [|x rest]; [exact H1|].
    simpl in Hlen.
    destruct rest as [|d rest'].
    + change (([x] ++ [c])) with (x :: [c]).
      rewrite (utf8_chars_cons x [c]), (utf8_chars_cons x []), Hl, H1.
      destruct (is_high x); [reflexivity|].
      destruct (is_low x); reflexivity.
    + simpl in Hlen.
      assert (IH1 := IH (d :: rest') ltac:(simpl; lia)).
      assert (IH2 := IH rest' ltac:(lia)).
      change ((x :: d :: rest') ++ [c]) with (x :: d :: (rest' ++ [c])).
      rewrite (utf8_chars_cons x (d :: rest' ++ [c])),
              (utf8_chars_cons x (d :: rest')).
      change (d :: rest' ++ [c]) with ((d :: rest') ++ [c]).
      rewrite IH1, IH2.
      destruct (is_high x); [destruct (is_low d)|destruct (is_low x)];
        reflexivity.
Qed.

Lemma utf8_snoc_ascii (s : jsstring) (c : Z) :
  ascii_unit c -> utf8 (s ++ [c]) = utf8 s ++ [c].
Proof.
  intros H. destruct (ascii_not_surrogate c H) as [Hh Hl].
  unfold utf8.
  rewrite (utf8_chars_snoc c Hh Hl (length s) s (le_n _)).
  rewrite concat_app. simpl. rewrite encode_ascii by exact H.
  reflexivity.
Qed.

(** A string of ASCII code units is its own UTF-8 encoding, one byte
    per character. *)
Lemma utf8_chars_ascii (s : jsstring) :
  Forall ascii_unit s -> utf8_chars s = map (fun c => [c]) s.
Proof.
  induction 1 as [|c rest Hc _ IH]; simpl; [reflexivity|].
  destruct (ascii_not_surrogate c Hc) as [-> ->].
  rewrite encode_ascii by exact Hc. now rewrite IH.
Qed.

End BufferFacts.

Module CryptoFacts.
Import Crypto.

Lemma diff_acc_zero (a : list Z) :
  forall b acc, length a = length b ->
    (diff_acc a b acc = 0 <-> acc = 0 /\ a = b).
Proof.
  induction a as [|x a IH]; intros [|y b] acc Hlen; simpl in *;
    try discriminate.
  - intuition.
  - injection Hlen as Hlen. rewrite (IH b _ Hlen).
    rewrite Z.lor_eq_0_iff, Z.lxor_eq_0_iff.
    split.
    + intros [[-> ->] ->]. auto.
    + intros [-> E]. injection E as -> ->. auto.
Qed.

Lemma visited_length (a : list Z) :
  forall b, length a = length b -> visited a b = length a.
Proof.
  induction a as [|x a IH]; intros [|y b] H; simpl in *;
    try discriminate; [reflexivity|].
  injection H as H. now rewrite IH.
Qed.

Lemma timingSafeEqual_true (a b : list Z) :
  timingSafeEqual a b = Ret true <-> a = b.
Proof.
  unfold timingSafeEqual.
  destruct (length a =? length b)%nat eqn:E.
  - apply Nat.eqb_eq in E.
    pose proof (diff_acc_zero a b 0 E) as H.
    split.
    + intros R. injection R as R. apply Z.eqb_eq in R. now apply H.
    + intros ->. f_equal. apply Z.eqb_eq. apply H. auto.
  - apply Nat.eqb_neq in E. split; [discriminate|].
    intros ->. contradiction.
Qed.

Lemma timingSafeEqual_same_length (a b : list Z) :
  length a = length b ->
  exists r, timingSafeEqual a b = Ret r /\ (r = true <-> a = b).
Proof.
  intros H. unfold timingSafeEqual.
  rewrite (proj2 (Nat.eqb_eq _ _) H).
  eexists. split; [reflexivity|].
  rewrite Z.eqb_eq, (diff_acc_zero a b 0 H). intuition.
Qed.

End CryptoFacts.

Module PrefixFacts.
Import Buffer.

Lemma pair_code_point_large (hi lo : Z) :
  is_high hi = true -> is_low lo = true -> 0x10000 <= pair_code_point hi lo.
Proof.
  unfold is_high, is_low, pair_code_point. intros H L.
  apply andb_true_iff in H. apply andb_true_iff in L.
  destruct H as [H1 H2], L as [L1 L2].
  apply Z.leb_le in H1, H2, L1, L2.
  rewrite Z.shiftl_mul_pow2 by lia. lia.
Qed.

Lemma encode_pair_length (hi lo : Z) :
  is_high hi = true -> is_low lo = true ->
  length (encode (pair_code_point hi lo)) = 4%nat.
Proof.
  intros H L. pose proof (pair_code_point_large hi lo H L) as P.
  unfold encode.
  destruct (pair_code_point hi lo <? 0x80) eqn:E1;
    [apply Z.ltb_lt in E1; lia|].
  destruct (pair_code_point hi lo <? 0x800) eqn:E2;
    [apply Z.ltb_lt in E2; lia|].
  destruct (pair_code_point hi lo <? 0x10000) eqn:E3;
    [apply Z.ltb_lt in E3; lia|].
  reflexivity.
Qed.

Lemma utf8_cons_length (x : Z) (rest : jsstring) :
  (1 <= length (utf8 (x :: rest)))%nat.
Proof.
  unfold utf8. rewrite BufferFacts.utf8_chars_cons.
  pose proof (BufferFacts.encode_length_pos x) as Ex.
  destruct (is_high x).
  - destruct rest as [|d rest']; [simpl; lia|].
    pose proof (BufferFacts.encode_length_pos (pair_code_point x d)) as Ep.
    destruct (is_low d); cbn [concat]; rewrite length_app;
      [lia | simpl; lia].
  - destruct (is_low x); cbn [concat]; rewrite length_app;
      [simpl; lia | lia].
Qed.

(** A string that is extended gets strictly longer in bytes. *)
Lemma utf8_app_longer (t : jsstring) :
  t <> [] ->
  forall n s, (length s <= n)%nat ->
    (length (utf8 s) < length (utf8 (s ++ t)))%nat.
Proof.
  intros Ht.
  assert (T : (1 <= length (utf8 t))%nat)
    by (destruct t as [|x t']; [contradiction | apply utf8_cons_length]).
  induction n as [|n IH]; intros s Hlen.
  - destruct s; simpl in Hlen; [simpl; lia | lia].
  - destruct s as [|x rest]; [simpl; lia|].
    simpl in Hlen.
    change ((x :: rest) ++ t) with (x :: (rest ++ t)).
    unfold utf8 in *.
    rewrite (BufferFacts.utf8_chars_cons x rest),
            (BufferFacts.utf8_chars_cons x (rest ++ t)).
    destruct (is_high x) eqn:Hx.
    + destruct rest as [|d rest'].
      * (* the surrogate at the end may pair up with the extension *)
        simpl app. destruct t as [|d t']; [contradiction|].
        destruct (is_low d) eqn:Hd.
        -- cbn [concat]. rewrite !length_app, encode_pair_length by assumption.
           simpl. lia.
        -- cbn [concat]. rewrite !length_app. simpl length at 1 2.
           change (concat (utf8_chars (d :: t'))) with (utf8 (d :: t')) in *.
           simpl length at 1. lia.
      * simpl in Hlen.
        change ((d :: rest') ++ t) with (d :: (rest' ++ t)).
        cbv beta match.
        destruct (is_low d).
        -- cbn [concat]. rewrite !length_app.
           specialize (IH rest' ltac:(lia)). lia.
        -- cbn [concat]. rewrite !length_app.
           specialize (IH (d :: rest') ltac:(simpl; lia)).
           change ((d :: rest') ++ t) with (d :: (rest' ++ t)) in IH. lia.
    + specialize (IH rest ltac:(lia)).
      destruct (is_low x); cbn [concat]; rewrite !length_app; lia.
Qed.

Lemma utf8_proper_prefix_differs (s t : jsstring) :
  t <> [] -> utf8 s <> utf8 (s ++ t).
Proof.
  intros Ht E.
  pose proof (utf8_app_longer t Ht (length s) s (le_n _)) as H.
  rewrite <- E in H. lia.
Qed.

End PrefixFacts.

Module Utf8Facts.
Import Buffer.

(** Bit operations of [encode] as arithmetic. *)
Lemma lor_high_low (c y k : Z) :
  0 <= k -> 0 <= y < 2 ^ k -> Z.lor (c * 2 ^ k) y = c * 2 ^ k + y.
Proof.
  intros Hk Hy.
  assert (L : Z.land (c * 2 ^ k) y = 0).
  { apply Z.bits_inj'. intros n Hn.
    rewrite Z.land_spec, Z.bits_0.
    destruct (Z.lt_ge_cases n k) as [Hlt|Hge].
    - rewrite Z.mul_pow2_bits_low by lia. reflexivity.
    - destruct (Z.eq_dec y 0) as [->|Hy0].
      + rewrite Z.bits_0. apply andb_false_r.
      + rewrite (Z.bits_above_log2 y n); [apply andb_false_r | lia |].
        apply Z.log2_lt_pow2; [lia|].
        apply Z.lt_le_trans with (2 ^ k); [lia|].
        apply Z.pow_le_mono_r; lia. }
  rewrite <- Z.lxor_lor by exact L.
  symmetry. apply Z.add_nocarry_lxor. exact L.
Qed.

Lemma land_63 (x : Z) : Z.land x 0x3F = x mod 64.
Proof. change 0x3F with (Z.ones 6). now rewrite Z.land_ones by lia. Qed.

Lemma shiftr_div (x k : Z) : 0 <= k -> Z.shiftr x k = x / 2 ^ k.
Proof. intros. now apply Z.shiftr_div_pow2. Qed.

Lemma continuation (x : Z) : Z.lor 0x80 (Z.land x 0x3F) = 128 + x mod 64.
Proof.
  rewrite land_63.
  change 0x80 with (2 * 2 ^ 6). rewrite lor_high_low; [lia | lia |].
  change (2 ^ 6) with 64. apply Z.mod_pos_bound. lia.
Qed.

Lemma encode_arith (cp : Z) :
  scalar cp ->
  encode cp =
    if cp <? 0x80 then [cp]
    else if cp <? 0x800 then [192 + cp / 64; 128 + cp mod 64]
    else if cp <? 0x10000 then
      [224 + cp / 4096; 128 + (cp / 64) mod 64; 128 + cp mod 64]
    else
      [240 + cp / 262144; 128 + (cp / 4096) mod 64;
       128 + (cp / 64) mod 64; 128 + cp mod 64].
Proof.
  intros [H0 H1]. unfold encode.
  rewrite !continuation, !shiftr_div by lia.
  change (2 ^ 6) with 64. change (2 ^ 12) with 4096. change (2 ^ 18) with 262144.
  destruct (cp <? 0x80) eqn:E1; [reflexivity|].
  apply Z.ltb_ge in E1.
  destruct (cp <? 0x800) eqn:E2.
  { apply Z.ltb_lt in E2. f_equal.
    change 0xC0 with (6 * 2 ^ 5). rewrite lor_high_low; [reflexivity | lia |].
    change (2 ^ 5) with 32. split; [apply Z.div_pos; lia|].
    apply Z.div_lt_upper_bound; lia. }
  apply Z.ltb_ge in E2.
  destruct (cp <? 0x10000) eqn:E3.
  { apply Z.ltb_lt in E3. f_equal.
    change 0xE0 with (14 * 2 ^ 4). rewrite lor_high_low; [reflexivity | lia |].
    change (2 ^ 4) with 16. split; [apply Z.div_pos; lia|].
    apply Z.div_lt_upper_bound; lia. }
  apply Z.ltb_ge in E3. f_equal.
  change 0xF0 with (30 * 2 ^ 3). rewrite lor_high_low; [reflexivity | lia |].
  change (2 ^ 3) with 8. split; [apply Z.div_pos; lia|].
  apply Z.div_lt_upper_bound; lia.
Qed.

Lemma cons_eq {A} (x y : A) (l l' : list A) :
  x :: l = y :: l' -> x = y /\ l = l'.
Proof. intros H. now injection H. Qed.

(** No encoding is a prefix of another one, and the bytes determine the
    code point. *)
Lemma encode_prefix_free (cp1 cp2 : Z) (r1 r2 : list Z) :
  scalar cp1 -> scalar cp2 ->
  encode cp1 ++ r1 = encode cp2 ++ r2 -> cp1 = cp2 /\ r1 = r2.
Proof.
  intros S1 S2. rewrite (encode_arith cp1 S1), (encode_arith cp2 S2).
  unfold scalar in *.
  destruct (cp1 <? 0x80) eqn:A1; [apply Z.ltb_lt in A1 | apply Z.ltb_ge in A1];
  [|destruct (cp1 <? 0x800) eqn:A2;
    [apply Z.ltb_lt in A2 | apply Z.ltb_ge in A2];
    [|destruct (cp1 <? 0x10000) eqn:A3;
      [apply Z.ltb_lt in A3 | apply Z.ltb_ge in A3]]];
  (destruct (cp2 <? 0x80) eqn:B1; [apply Z.ltb_lt in B1 | apply Z.ltb_ge in B1];
   [|destruct (cp2 <? 0x800) eqn:B2;
     [apply Z.ltb_lt in B2 | apply Z.ltb_ge in B2];
     [|destruct (cp2 <? 0x10000) eqn:B3;
       [apply Z.ltb_lt in B3 | apply Z.ltb_ge in B3]]]);
  cbn [app]; intros E;
  repeat match goal with
         | H : _ :: _ = _ :: _ |- _ =>
             apply cons_eq in H; let H' := fresh "H" in destruct H as [H' H]
         end;
  first [ exfalso; Z.div_mod_to_equations; lia
        | split; [Z.div_mod_to_equations; lia | assumption] ].
Qed.

Lemma utf8_chars_code_points (s : jsstring) :
  forall n, (length s <= n)%nat ->
    utf8_chars s = map encode (code_points s).
Proof.
  intros n. revert s. induction n as [|n IH]; intros s Hlen.
  - destruct s; [reflexivity | simpl in Hlen; lia].
  - destruct s as [|c rest]; [reflexivity|].
    simpl in Hlen. rewrite BufferFacts.utf8_chars_cons.
    cbn [code_points].
    destruct rest as [|d rest'].
    + destruct (is_high c); [reflexivity|]. destruct (is_low c); reflexivity.
    + simpl in Hlen.
      rewrite (IH (d :: rest')) by (simpl; lia).
      rewrite (IH rest') by lia.
      destruct (is_high c); [destruct (is_low d) | destruct (is_low c)];
        reflexivity.
Qed.

Lemma pair_code_point_arith (hi lo : Z) :
  pair_code_point hi lo = 0x10000 + (hi - 0xD800) * 1024 + (lo - 0xDC00).
Proof. unfold pair_code_point. now rewrite Z.shiftl_mul_pow2 by lia. Qed.

Lemma surrogate_ranges (c : Z) :
  (is_high c = true <-> 0xD800 <= c <= 0xDBFF)
  /\ (is_low c = true <-> 0xDC00 <= c <= 0xDFFF).
Proof.
  unfold is_high, is_low. rewrite !andb_true_iff, !Z.leb_le. tauto.
Qed.

Lemma code_points_scalar (s : jsstring) :
  in_range s ->
  forall n, (length s <= n)%nat -> Forall scalar (code_points s).
Proof.
  intros Hr n. revert s Hr. induction n as [|n IH]; intros s Hr Hlen.
  - destruct s; [constructor | simpl in Hlen; lia].
  - destruct s as [|c rest]; [constructor|].
    simpl in Hlen. inversion Hr as [|? ? Hc Hrest]; subst.
    cbn [code_points].
    assert (S0 : scalar 0xFFFD) by (unfold scalar; lia).
    assert (Sc : scalar c) by (unfold scalar; lia).
    destruct (is_high c) eqn:Hh.
    + destruct rest as [|d rest']; [constructor; [exact S0 | constructor]|].
      inversion Hrest as [|? ? Hd Hrest']; subst. simpl in Hlen.
      destruct (is_low d) eqn:Hl.
      * constructor; [|apply IH; [assumption | lia]].
        apply surrogate_ranges in Hh, Hl.
        unfold scalar. rewrite pair_code_point_arith. lia.
      * constructor; [exact S0 | apply IH; [assumption | simpl; lia]].
    + destruct (is_low c); (constructor; [|apply IH; [assumption | lia]]);
        assumption.
Qed.

Lemma concat_encode_inj (l1 : list Z) :
  forall l2, Forall scalar l1 -> Forall scalar l2 ->
    concat (map encode l1) = concat (map encode l2) -> l1 = l2.
Proof.
  induction l1 as [|cp1 l1 IH]; intros [|cp2 l2] H1 H2 E; simpl in E.
  - reflexivity.
  - pose proof (BufferFacts.encode_length_pos cp2) as P.
    apply (f_equal (@length Z)) in E. rewrite length_app in E. simpl in E. lia.
  - pose proof (BufferFacts.encode_length_pos cp1) as P.
    apply (f_equal (@length Z)) in E. rewrite length_app in E. simpl in E. lia.
  - inversion H1; inversion H2; subst.
    destruct (encode_prefix_free cp1 cp2 _ _ ltac:(assumption) ltac:(assumption) E)
      as [-> E'].
    f_equal. now apply IH.
Qed.

Lemma well_formed_in_range (s : jsstring) :
  forall n, (length s <= n)%nat -> well_formed s = true -> in_range s.
Proof.
  intros n. revert s. induction n as [|n IH]; intros s Hlen Hwf.
  - destruct s; [constructor | simpl in Hlen; lia].
  - destruct s as [|c rest]; [constructor|].
    simpl in Hlen. cbn [well_formed] in Hwf.
    destruct (is_high c) eqn:Hh.
    + destruct rest as [|d rest']; [discriminate|].
      apply andb_true_iff in Hwf. destruct Hwf as [Hl Hwf].
      apply surrogate_ranges in Hh, Hl. simpl in Hlen.
      constructor; [lia|]. constructor; [lia|]. apply IH; [lia | exact Hwf].
    + destruct (is_low c); [discriminate|].
      apply andb_true_iff in Hwf. destruct Hwf as [Hc Hwf].
      apply andb_true_iff in Hc. destruct Hc as [C0 C1].
      apply Z.leb_le in C0, C1.
      constructor; [lia|]. apply IH; [lia | exact Hwf].
Qed.

Lemma code_points_inj :
  forall n a b, (length a <= n)%nat ->
    well_formed a = true -> well_formed b = true ->
    code_points a = code_points b -> a = b.
Proof.
  induction n as [|n IH]; intros a b Hlen Ha Hb E.
  - destruct a; [|simpl in Hlen; lia].
    destruct b as [|c' restb]; [reflexivity|].
    exfalso. cbn [code_points] in E.
    destruct (is_high c'); [destruct restb as [|d' restb']; [|destruct (is_low d')]
                           | destruct (is_low c')]; discriminate.
  - destruct a as [|c rest].
    { destruct b as [|c' restb]; [reflexivity|].
      exfalso. cbn [code_points] in E.
      destruct (is_high c'); [destruct restb as [|d' restb']; [|destruct (is_low d')]
                             | destruct (is_low c')]; discriminate. }
    simpl in Hlen.
    destruct b as [|c' restb].
    { exfalso. cbn [code_points] in E.
      destruct (is_high c); [destruct rest as [|d rest']; [|destruct (is_low d)]
                            | destruct (is_low c)]; discriminate. }
    cbn [code_points well_formed] in *.
    destruct (is_high c) eqn:Hh, (is_high c') eqn:Hh'.
    + destruct rest as [|d rest']; [discriminate|].
      destruct restb as [|d' restb']; [discriminate|].
      apply andb_true_iff in Ha, Hb. destruct Ha as [Hl Ha], Hb as [Hl' Hb].
      rewrite Hl, Hl' in E. apply cons_eq in E. destruct E as [Ep E].
      rewrite !pair_code_point_arith in Ep.
      apply surrogate_ranges in Hh, Hh', Hl, Hl'.
      assert (c = c') by lia. assert (d = d') by lia. subst c' d'.
      simpl in Hlen. f_equal. f_equal. apply (IH rest' restb'); auto; lia.
    + destruct rest as [|d rest']; [discriminate|].
      apply andb_true_iff in Ha. destruct Ha as [Hl Ha].
      destruct (is_low c'); [discriminate|].
      apply andb_true_iff in Hb. destruct Hb as [Hc Hb].
      apply andb_true_iff in Hc. destruct Hc as [C0 C1].
      apply Z.leb_le in C0, C1.
      rewrite Hl in E. apply cons_eq in E. destruct E as [Ep E].
      rewrite pair_code_point_arith in Ep.
      apply surrogate_ranges in Hh, Hl. lia.
    + destruct restb as [|d' restb']; [discriminate|].
      apply andb_true_iff in Hb. destruct Hb as [Hl' Hb].
      destruct (is_low c); [discriminate|].
      apply andb_true_iff in Ha. destruct Ha as [Hc Ha].
      apply andb_true_iff in Hc. destruct Hc as [C0 C1].
      apply Z.leb_le in C0, C1.
      rewrite Hl' in E. apply cons_eq in E. destruct E as [Ep E].
      rewrite pair_code_point_arith in Ep.
      apply surrogate_ranges in Hh', Hl'. lia.
    + destruct (is_low c); [discriminate|].
      destruct (is_low c'); [discriminate|].
      apply andb_true_iff in Ha, Hb. destruct Ha as [_ Ha], Hb as [_ Hb].
      apply cons_eq in E. destruct E as [-> E].
      f_equal. apply (IH rest restb); auto; lia.
Qed.

(** Well-formed strings with the same UTF-8 bytes are the same string. *)
Theorem utf8_injective (a b : jsstring) :
  well_formed a = true -> well_formed b = true ->
  utf8 a = utf8 b -> a = b.
Proof.
  intros Ha Hb E.
  apply (code_points_inj (length a) a b (le_n _) Ha Hb).
  unfold utf8 in E.
  rewrite (utf8_chars_code_points a (length a) (le_n _)) in E.
  rewrite (utf8_chars_code_points b (length b) (le_n _)) in E.
  apply concat_encode_inj in E; [exact E | |].
  - apply (code_points_scalar a) with (n := length a); [|lia].
    now apply (well_formed_in_range a (length a)).
  - apply (code_points_scalar b) with (n := length b); [|lia].
    now apply (well_formed_in_range b (length b)).
Qed.

End Utf8Facts.

(* ================================================================== *)
(** ** The comparator *)
(* ================================================================== *)

Lemma land_b2z (x y : bool) :
  negb (Z.land (b2z x) (b2z y) =? 0) = x && y.
Proof. destruct x, y; reflexivity. Qed.

Lemma safeCompare_buffers_str (a b : jsstring) :
  safeCompare_buffers (str a) (str b) =
    Ret (Buffer.byteLengthStr a, Buffer.byteLengthStr b,
         mkBuffers (Buffer.utf8 a)
                   (Buffer.write (Buffer.alloc (Buffer.byteLengthStr a) 0) b)).
Proof.
  unfold safeCompare_buffers, str. simpl.
  now rewrite BufferFacts.write_alloc_exact.
Qed.

Lemma secretBuffer_length (a b : jsstring) :
  length (Buffer.write (Buffer.alloc (Buffer.byteLengthStr a) 0) b)
  = length (Buffer.utf8 a).
Proof.
  rewrite BufferFacts.write_length, BufferFacts.alloc_length.
  unfold Buffer.byteLengthStr. apply Nat2Z.id.
Qed.

(** On strings [safeCompare] always returns, and what it returns is the
    conjunction of the buffer check and the length check. *)
Lemma safeCompare_str (a b : jsstring) :
  exists equal,
    Crypto.timingSafeEqual (Buffer.utf8 a)
      (Buffer.write (Buffer.alloc (Buffer.byteLengthStr a) 0) b) = Ret equal
    /\ safeCompare (str a) (str b) =
         Ret (equal && (Buffer.byteLengthStr a =? Buffer.byteLengthStr b)).
Proof.
  destruct (CryptoFacts.timingSafeEqual_same_length
              (Buffer.utf8 a)
              (Buffer.write (Buffer.alloc (Buffer.byteLengthStr a) 0) b))
    as [equal [Heq _]].
  - symmetry. apply secretBuffer_length.
  - exists equal. split; [exact Heq|].
    unfold safeCompare. rewrite safeCompare_buffers_str. simpl.
    rewrite Heq. simpl. now rewrite land_b2z.
Qed.

Lemma safeCompare_spec (a b : jsstring) :
  safeCompare (str a) (str b) =
    Ret (if list_eq_dec Z.eq_dec (Buffer.utf8 a) (Buffer.utf8 b)
         then true else false).
Proof.
  destruct (safeCompare_str a b) as [equal [Heq ->]]. f_equal.
  destruct (list_eq_dec Z.eq_dec (Buffer.utf8 a) (Buffer.utf8 b)) as [E|NE].
  - assert (L : Buffer.byteLengthStr a = Buffer.byteLengthStr b)
      by (unfold Buffer.byteLengthStr; now rewrite E).
    rewrite L, Z.eqb_refl, andb_true_r.
    rewrite L, BufferFacts.write_alloc_exact, E in Heq.
    assert (T : Crypto.timingSafeEqual (Buffer.utf8 b) (Buffer.utf8 b) = Ret true)
      by now apply CryptoFacts.timingSafeEqual_true.
    congruence.
  - destruct (Buffer.byteLengthStr a =? Buffer.byteLengthStr b) eqn:L;
      [|apply andb_false_r].
    apply Z.eqb_eq in L. rewrite andb_true_r.
    rewrite L, BufferFacts.write_alloc_exact in Heq.
    destruct equal; [|reflexivity].
    apply CryptoFacts.timingSafeEqual_true in Heq. contradiction.
Qed.

Lemma safeCompare_true_iff (a b : jsstring) :
  safeCompare (str a) (str b) = Ret true <-> Buffer.utf8 a = Buffer.utf8 b.
Proof.
  rewrite safeCompare_spec.
  destruct (list_eq_dec Z.eq_dec (Buffer.utf8 a) (Buffer.utf8 b));
    split; intros H; try reflexivity; try assumption;
    try discriminate; contradiction.
Qed.

Lemma safeCompare_false_iff (a b : jsstring) :
  safeCompare (str a) (str b) = Ret false <-> Buffer.utf8 a <> Buffer.utf8 b.
Proof.
  rewrite safeCompare_spec.
  destruct (list_eq_dec Z.eq_dec (Buffer.utf8 a) (Buffer.utf8 b));
    split; intros H; try reflexivity; try assumption;
    try discriminate; contradiction.
Qed.

Lemma safeCompare_non_string (x y : jsany) :
  is_string x = false \/ is_string y = false ->
  safeCompare x y = Throw TypeError.
Proof.
  intros [H|H].
  - destruct x as [[]| |]; try discriminate; reflexivity.
  - destruct y as [[]| |]; try discriminate;
      destruct x as [[]| |]; reflexivity.
Qed.

(** C1.  For all strings [a] and [b], [safeCompare(a, b)] returns (it
    never throws), and it returns [true] exactly when the UTF-8 bytes of
    [a] and of [b] are the same sequence; for well-formed strings that is
    exactly when [a] and [b] are the same string.  In particular
    [safeCompare(s, s)] is [true] for every [s], the empty string
    included, [safeCompare(s, s + "x")] is [false], and the result is
    [true] exactly when [timingSafeEqual] on the two buffers succeeds and
    the two byte lengths are equal. *)
Theorem C1_safeCompare_true_iff_same_bytes :
  forall a b s : jsstring,
    (exists r, safeCompare (str a) (str b) = Ret r
               /\ (r = true <-> Buffer.utf8 a = Buffer.utf8 b))
    /\ (Buffer.well_formed a = true -> Buffer.well_formed b = true ->
        (safeCompare (str a) (str b) = Ret true <-> a = b))
    /\ safeCompare (str s) (str s) = Ret true
    /\ safeCompare (str []) (str []) = Ret true
    /\ safeCompare (str s) (str (s ++ lit "x")) = Ret false
    /\ (exists la lb bufs equal,
          safeCompare_buffers (str a) (str b) = Ret (la, lb, bufs)
          /\ la = Buffer.byteLengthStr a
          /\ lb = Buffer.byteLengthStr b
          /\ Crypto.timingSafeEqual (userInputBuffer bufs) (secretBuffer bufs)
             = Ret equal
          /\ (safeCompare (str a) (str b) = Ret true
              <-> equal = true /\ la = lb)).
Proof.
  intros a b s. split; [|split; [|split; [|split; [|split]]]].
  - rewrite safeCompare_spec. eexists. split; [reflexivity|].
    destruct (list_eq_dec Z.eq_dec (Buffer.utf8 a) (Buffer.utf8 b));
      intuition discriminate.
  - intros Ha Hb. rewrite safeCompare_true_iff. split.
    + now apply Utf8Facts.utf8_injective.
    + now intros ->.
  - now apply safeCompare_true_iff.
  - reflexivity.
  - apply safeCompare_false_iff.
    change (lit "x") with [120].
    rewrite BufferFacts.utf8_snoc_ascii by (unfold Buffer.ascii_unit; lia).
    intros E. apply (f_equal (@length Z)) in E.
    rewrite length_app in E. simpl in E. lia.
  - destruct (safeCompare_str a b) as [equal [Heq Hcmp]].
    exists (Buffer.byteLengthStr a), (Buffer.byteLengthStr b),
      (mkBuffers (Buffer.utf8 a)
         (Buffer.write (Buffer.alloc (Buffer.byteLengthStr a) 0) b)), equal.
    split; [apply safeCompare_buffers_str|].
    split; [reflexivity|]. split; [reflexivity|].
    split; [exact Heq|].
    rewrite Hcmp. split.
    + intros R. injection R as R. apply andb_true_iff in R.
      destruct R as [R1 R2]. apply Z.eqb_eq in R2. auto.
    + intros [-> ->]. now rewrite Z.eqb_refl.
Qed.

(** Outside the well-formed strings the bytes say less than the
    string: two different lone surrogates are both written as U+FFFD. *)
Example lone_surrogates_compare_equal :
  safeCompare (str [0xD800]) (str [0xD801]) = Ret true.
Proof. reflexivity. Qed.

Lemma shape_str (a b : jsstring) :
  shape (str a) (str b) =
    Ret (length (Buffer.utf8 a), length (Buffer.utf8 a), length (Buffer.utf8 a)).
Proof.
  unfold shape. rewrite safeCompare_buffers_str. simpl.
  rewrite CryptoFacts.visited_length by (symmetry; apply secretBuffer_length).
  now rewrite secretBuffer_length.
Qed.

(** C3.  For all strings [a] and [b], both buffers of [safeCompare(a, b)]
    have the byte length of [a].  The first holds the bytes of [a]; the
    second holds the leading whole characters of [b] that fit into that
    length, followed by zeros: all of [b] and zero padding when [b] is
    not longer than [a], a truncation of [b] otherwise (cut at exactly
    that length when [b] is made of one-byte characters).  The equality
    check goes through exactly that many byte pairs whatever the bytes
    are, so the sizes and the number of pairs are the same for any two
    calls whose first arguments have the same byte length.  (Wall-clock
    time itself is not part of the model.) *)
Theorem C3_buffers_sized_by_first_argument :
  forall a b : jsstring,
    let n := length (Buffer.utf8 a) in
    let written := Buffer.fit n (Buffer.utf8_chars b) in
    exists bufs,
      safeCompare_buffers (str a) (str b)
        = Ret (Buffer.byteLengthStr a, Buffer.byteLengthStr b, bufs)
      /\ Z.of_nat (length (userInputBuffer bufs)) = Buffer.byteLengthStr a
      /\ Z.of_nat (length (secretBuffer bufs)) = Buffer.byteLengthStr a
      /\ userInputBuffer bufs = Buffer.utf8 a
      /\ secretBuffer bufs = written ++ repeat 0 (n - length written)
      /\ (exists cut, Buffer.utf8 b = written ++ cut)
      /\ (Buffer.byteLengthStr b <= Buffer.byteLengthStr a ->
          written = Buffer.utf8 b)
      /\ (Buffer.byteLengthStr a < Buffer.byteLengthStr b ->
          (length written <= n)%nat /\ written <> Buffer.utf8 b)
      /\ (Forall Buffer.ascii_unit b ->
          written = firstn n (Buffer.utf8 b))
      /\ Crypto.visited (userInputBuffer bufs) (secretBuffer bufs) = n
      /\ (forall a' b' : jsstring,
            Buffer.byteLengthStr a' = Buffer.byteLengthStr a ->
            shape (str a') (str b') = shape (str a) (str b)).
Proof.
  intros a b n written.
  exists (mkBuffers (Buffer.utf8 a)
            (Buffer.write (Buffer.alloc (Buffer.byteLengthStr a) 0) b)).
  assert (Hn : Z.to_nat (Buffer.byteLengthStr a) = n)
    by (unfold Buffer.byteLengthStr; apply Nat2Z.id).
  assert (Hfit : (length written <= n)%nat) by apply BufferFacts.fit_length.
  simpl.
  split; [apply safeCompare_buffers_str|].
  split; [reflexivity|].
  split; [rewrite secretBuffer_length; reflexivity|].
  split; [reflexivity|].
  split; [rewrite BufferFacts.write_alloc, Hn; reflexivity|].
  split; [apply BufferFacts.fit_prefix|].
  split.
  { intros H. apply BufferFacts.fit_all.
    subst n. unfold Buffer.byteLengthStr, Buffer.utf8 in *. lia. }
  split.
  { intros H. split; [exact Hfit|].
    intros E. rewrite E in Hfit.
    unfold Buffer.byteLengthStr in H. subst n. lia. }
  split.
  { intros H. subst written. unfold Buffer.utf8.
    apply BufferFacts.fit_single_bytes.
    rewrite BufferFacts.utf8_chars_ascii by exact H.
    apply Forall_map. apply Forall_forall. reflexivity. }
  split.
  { apply CryptoFacts.visited_length. symmetry. apply secretBuffer_length. }
  intros a' b' H. rewrite !shape_str.
  unfold Buffer.byteLengthStr in H. apply Nat2Z.inj in H. now rewrite H.
Qed.

(** The second buffer when a two-byte character straddles the end of a
    one-byte buffer: nothing of it is written. *)
Example secretBuffer_straddling :
  safeCompare_buffers (str (lit "a")) (str [233])
  = Ret (1, 2, mkBuffers [97] [0]).
Proof. reflexivity. Qed.

(* ================================================================== *)
(** ** The built-in static-table policy *)
(* ================================================================== *)

Lemma same_bytes_iff (a b : jsstring) :
  same_bytes a b = true <-> Buffer.utf8 a = Buffer.utf8 b.
Proof.
  unfold same_bytes.
  destruct (list_eq_dec Z.eq_dec (Buffer.utf8 a) (Buffer.utf8 b));
    intuition discriminate.
Qed.

Lemma safeCompare_same_bytes (a b : jsstring) :
  safeCompare (str a) (str b) = Ret (same_bytes a b).
Proof. apply safeCompare_spec. Qed.

Lemma land_b2z_andb (x y : bool) : Z.land (b2z x) (b2z y) = b2z (x && y).
Proof. destruct x, y; reflexivity. Qed.

(** The loop visits every key: it makes both comparisons for each of
    them and folds [or_step] over all of them. *)
Lemma for_in_users_strings (table : list (jsstring * value))
    (username password : jsstring) :
  forall remaining authorized calls,
    forallb (fun i => match get table i with VStr _ => true | _ => false end)
            remaining = true ->
    for_in_users table (str username) (str password) remaining authorized calls
    = (calls ++ flat_map (calls_of table username password) remaining,
       Ret (fold_left (or_step table username password) remaining authorized)).
Proof.
  induction remaining as [|i rest IH]; intros authorized calls H; simpl.
  - now rewrite app_nil_r.
  - simpl in H. apply andb_true_iff in H. destruct H as [Hi Hrest].
    change (AVal (VStr i)) with (str i).
    rewrite safeCompare_same_bytes.
    destruct (get table i) as [| | | |stored|] eqn:G; try discriminate.
    change (AVal (VStr stored)) with (str stored).
    rewrite safeCompare_same_bytes.
    rewrite IH by exact Hrest.
    rewrite land_b2z_andb.
    replace (or_step table username password authorized i)
      with (VNum (Z.lor (ToInt32 authorized)
                    (b2z (same_bytes username i && same_bytes password stored))))
      by (unfold or_step, entry_matches; now rewrite G).
    rewrite <- !app_assoc. reflexivity.
Qed.

Lemma or_step_flag table username password authorized i :
  flag authorized ->
  flag (or_step table username password authorized i)
  /\ truthy (or_step table username password authorized i)
     = truthy authorized || entry_matches table username password i.
Proof.
  unfold or_step.
  intros [->|[->| ->]]; destruct (entry_matches table username password i);
    simpl; unfold flag; auto.
Qed.

Lemma fold_or_step table username password :
  forall remaining authorized,
    flag authorized ->
    flag (fold_left (or_step table username password) remaining authorized)
    /\ truthy (fold_left (or_step table username password) remaining authorized)
       = truthy authorized
         || existsb (entry_matches table username password) remaining.
Proof.
  induction remaining as [|i rest IH]; intros authorized F; simpl.
  - now rewrite orb_false_r.
  - destruct (or_step_flag table username password authorized i F) as [F' T'].
    destruct (IH _ F') as [F'' T'']. split; [exact F''|].
    rewrite T'', T'. now rewrite orb_assoc.
Qed.

(** C2.  For every user name and password that are strings and every
    table of string passwords, the built-in policy returns; what it
    returns is truthy exactly when some entry of the table has the same
    bytes as the user name for its key and the same bytes as the password
    for its value.  It has then called the comparator twice for every
    entry of the table, in order, and the value returned is the bitwise OR
    folded over all the entries starting from [false].  When the strings
    involved are well-formed, having the same bytes is being the same
    string.  An empty table denies, and so does a table in which every
    stored password is a proper extension of the given one. *)
Theorem C2_static_table_policy :
  forall (table : list (jsstring * value)) (username password : jsstring),
    passwords_are_strings table = true ->
    exists authorized,
      staticUsersAuthorizer_calls (Val (VObj table)) (str username) (str password)
      = (flat_map (calls_of table username password) (keys table), Ret authorized)
      /\ run_plain (staticUsersAuthorizer (Val (VObj table))
                      [str username; str password]) = Ret authorized
      /\ authorized
         = fold_left (or_step table username password) (keys table) (VBool false)
      /\ (truthy authorized = true <->
          exists i stored,
            In i (keys table) /\ get table i = VStr stored
            /\ Buffer.utf8 username = Buffer.utf8 i
            /\ Buffer.utf8 password = Buffer.utf8 stored)
      /\ (Buffer.well_formed username = true ->
          Buffer.well_formed password = true ->
          well_formed_table table = true ->
          (truthy authorized = true <->
           exists i stored,
             In i (keys table) /\ get table i = VStr stored
             /\ username = i /\ password = stored))
      /\ (table = [] -> authorized = VBool false)
      /\ ((forall i, In i (keys table) ->
             exists more, more <> [] /\ get table i = VStr (password ++ more)) ->
          truthy authorized = false).
Proof.
  intros table username password H.
  exists (fold_left (or_step table username password) (keys table) (VBool false)).
  assert (Hcalls :
    staticUsersAuthorizer_calls (Val (VObj table)) (str username) (str password)
    = (flat_map (calls_of table username password) (keys table),
       Ret (fold_left (or_step table username password) (keys table)
              (VBool false)))).
  { unfold staticUsersAuthorizer_calls. simpl enumerable.
    now rewrite for_in_users_strings by exact H. }
  assert (Htruthy :
    truthy (fold_left (or_step table username password) (keys table) (VBool false))
    = existsb (entry_matches table username password) (keys table)).
  { destruct (fold_or_step table username password (keys table) (VBool false))
      as [_ T]; [left; reflexivity | exact T]. }
  split; [exact Hcalls|].
  split.
  { unfold staticUsersAuthorizer, argument. simpl nth.
    change (AVal (VStr username)) with (str username).
    rewrite Hcalls. reflexivity. }
  split; [reflexivity|].
  assert (Hbytes :
    truthy (fold_left (or_step table username password) (keys table) (VBool false))
    = true <->
    exists i stored,
      In i (keys table) /\ get table i = VStr stored
      /\ Buffer.utf8 username = Buffer.utf8 i
      /\ Buffer.utf8 password = Buffer.utf8 stored).
  { rewrite Htruthy, existsb_exists. unfold entry_matches. split.
    - intros [i [Hin Hm]]. apply andb_true_iff in Hm. destruct Hm as [Hu Hp].
      destruct (get table i) as [| | | |stored|] eqn:G; try discriminate.
      exists i, stored. rewrite same_bytes_iff in Hu, Hp. auto.
    - intros [i [stored [Hin [G [Hu Hp]]]]]. exists i. split; [exact Hin|].
      rewrite G. apply andb_true_iff. now rewrite !same_bytes_iff. }
  split; [exact Hbytes|].
  split.
  { intros Wu Wp Wt. rewrite Hbytes. unfold well_formed_table in Wt.
    rewrite forallb_forall in Wt. split.
    - intros [i [stored [Hin [G [Hu Hp]]]]]. exists i, stored.
      specialize (Wt i Hin). rewrite G in Wt.
      apply andb_true_iff in Wt. destruct Wt as [Wi Ws].
      split; [exact Hin|]. split; [exact G|].
      split; now apply Utf8Facts.utf8_injective.
    - intros [i [stored [Hin [G [-> ->]]]]]. exists i, stored. auto. }
  split.
  { intros ->. reflexivity. }
  intros Hext. rewrite Htruthy.
  apply not_true_is_false. intros E. apply existsb_exists in E.
  destruct E as [i [Hin Hm]]. unfold entry_matches in Hm.
  apply andb_true_iff in Hm. destruct Hm as [_ Hp].
  destruct (Hext i Hin) as [more [Hmore G]]. rewrite G in Hp.
  apply same_bytes_iff in Hp.
  exact (PrefixFacts.utf8_proper_prefix_differs password more Hmore Hp).
Qed.

Lemma C2_static_table_policy_witness :
  passwords_are_strings admin_table = true
  /\ exists authorized,
      staticUsersAuthorizer_calls (Val (VObj admin_table))
        (str (lit "Admin")) (str (lit "secret"))
      = (flat_map (calls_of admin_table (lit "Admin") (lit "secret"))
           (keys admin_table), Ret authorized)
      /\ truthy authorized = false.
Proof.
  split; [reflexivity|].
  destruct (C2_static_table_policy admin_table (lit "Admin") (lit "secret")
              eq_refl)
    as [authorized [Hcalls [_ [_ [_ [_ [_ Hprefix]]]]]]].
  exists authorized. split; [exact Hcalls|].
  apply Hprefix. intros i [<-|[]].
  exists (lit "1234"). split; [discriminate | reflexivity].
Defined.

Example static_table_accepts_exact :
  snd (staticUsersAuthorizer_calls (Val (VObj admin_table))
         (str (lit "Admin")) (str (lit "secret1234"))) = Ret (VNum 1).
Proof. reflexivity. Qed.

Example static_table_denies_prefix :
  snd (staticUsersAuthorizer_calls (Val (VObj admin_table))
         (str (lit "Admin")) (str (lit "secret"))) = Ret (VNum 0).
Proof. reflexivity. Qed.

(* ================================================================== *)
(** ** The middleware *)
(* ================================================================== *)

Section MiddlewareFacts.

Variable auth : request -> option (jsstring * jsstring).
Variable mw : middleware.

Lemma count_next_app (l1 l2 : list event) :
  count_next (l1 ++ l2) = (count_next l1 + count_next l2)%nat.
Proof. unfold count_next. now rewrite filter_app, length_app. Qed.

Lemma count_next_response (evs : list event) :
  forallb is_response_event evs = true -> count_next evs = 0%nat.
Proof.
  induction evs as [|e evs IH]; [reflexivity|].
  simpl. intros H. apply andb_true_iff in H. destruct H as [He Hevs].
  unfold count_next in *. simpl.
  destruct e; try discriminate; simpl; auto.
Qed.

Lemma unauthorized_returns (st : state) (realmName response : value) :
  (challenge mw = true ->
   run_plain (realm mw [AReq (st_req st)]) = Ret realmName) ->
  run_plain (getResponseBody mw [AReq (st_req st)]) = Ret response ->
  unauthorized mw st
  = (mkState (st_req st) (st_log st ++ denial_events mw realmName response),
     Ret VUndefined).
Proof.
  intros Hrealm Hbody.
  unfold unauthorized, denial_events, bind, get_req, lift, emit, ret. simpl.
  destruct (challenge mw).
  - rewrite (Hrealm eq_refl). simpl. rewrite Hbody.
    destruct response; simpl; rewrite <- !app_assoc; reflexivity.
  - simpl. rewrite Hbody.
    destruct response; simpl; rewrite <- !app_assoc; reflexivity.
Qed.

(** Whatever the realm and the body producers do, [unauthorized] leaves
    the request alone and only adds calls on the response to the log. *)
Lemma unauthorized_frame (st : state) :
  exists evs r,
    unauthorized mw st = (mkState (st_req st) (st_log st ++ evs), r)
    /\ forallb is_response_event evs = true.
Proof.
  unfold unauthorized, bind, get_req, lift, emit, ret. simpl.
  destruct (challenge mw).
  - destruct (run_plain (realm mw [AReq (st_req st)])) as [realmName|e].
    + simpl.
      destruct (run_plain (getResponseBody mw [AReq (st_req st)]))
        as [response|e].
      * destruct response; simpl; rewrite <- !app_assoc;
          eexists; eexists; (split; [reflexivity|reflexivity]).
      * eexists; eexists; (split; [reflexivity|reflexivity]).
    + exists [], (Throw e). rewrite app_nil_r. destruct st. auto.
  - simpl.
    destruct (run_plain (getResponseBody mw [AReq (st_req st)]))
      as [response|e].
    + destruct response; simpl; rewrite <- !app_assoc;
        eexists; eexists; (split; [reflexivity|reflexivity]).
    + exists [], (Throw e). rewrite app_nil_r. destruct st. auto.
Qed.

Lemma next_run (st : state) :
  next st = (mkState (st_req st) (st_log st ++ [EvNext]), Ret VUndefined).
Proof. reflexivity. Qed.

Lemma authorizerCallback_error (err approved : value) (st : state) :
  is_error err = true ->
  authorizerCallback mw err approved st = (st, Throw (IfError err)).
Proof.
  intros H. unfold authorizerCallback, bind, lift.
  destruct err; try discriminate; reflexivity.
Qed.

Lemma authorizerCallback_no_error (err approved : value) (st : state) :
  is_error err = false ->
  authorizerCallback mw err approved st
  = if truthy approved then next st else unauthorized mw st.
Proof.
  intros H. unfold authorizerCallback, bind, lift.
  destruct err; try discriminate; simpl; destruct (truthy approved);
    reflexivity.
Qed.

(** The middleware without usable credentials. *)
Lemma handle_denied_at_once (req : request) :
  auth req = None -> allowEmptyCredentials mw = false ->
  handle auth mw req = unauthorized mw (mkState req []).
Proof.
  intros Hauth Hallow.
  unfold handle, authMiddleware, bind, get_req. simpl.
  rewrite Hauth, Hallow. reflexivity.
Qed.

Lemma handle_asks (req : request) :
  negb (is_some (auth req)) && negb (allowEmptyCredentials mw) = false ->
  handle auth mw req =
    if isAsync mw then
      run_with (authorizerCallback mw)
        (apply (authorizer mw) (authorizer_args auth mw req)) (asked auth mw req)
    else
      match run_plain (apply (authorizer mw) (authorizer_args auth mw req)) with
      | Ret verdict =>
          if truthy verdict then next (asked auth mw req)
          else unauthorized mw (asked auth mw req)
      | Throw e => (asked auth mw req, Throw e)
      end.
Proof.
  intros H.
  unfold handle, authMiddleware, asked, authorizer_args, bind, get_req. simpl.
  rewrite H. unfold credentials.
  destruct (auth req) as [[name pass]|];
    unfold set_req_auth, call_async, call_sync, bind, emit, lift, attach; simpl;
    destruct (isAsync mw), (passRequest mw); simpl; try reflexivity;
    match goal with
    | |- context [run_plain ?t] => destruct (run_plain t) as [verdict|e]
    end; simpl; try reflexivity; destruct (truthy verdict); reflexivity.
Qed.

End MiddlewareFacts.

Section Decision.

Variable auth : request -> option (jsstring * jsstring).
Variable mw : middleware.

(** The callback leaves the request alone and only adds to the log. *)
Lemma authorizerCallback_frame (err approved : value) (st : state) :
  exists evs r,
    authorizerCallback mw err approved st
    = (mkState (st_req st) (st_log st ++ evs), r).
Proof.
  destruct (is_error err) eqn:E.
  - rewrite authorizerCallback_error by exact E.
    exists [], (Throw (IfError err)). rewrite app_nil_r. now destruct st.
  - rewrite authorizerCallback_no_error by exact E.
    destruct (truthy approved).
    + exists [EvNext], (Ret VUndefined). apply next_run.
    + destruct (unauthorized_frame mw st) as [evs [r [H _]]].
      exists evs, r. exact H.
Qed.

(** So does any authorizer that is handed the callback. *)
Lemma run_with_frame (t : behaviour) :
  forall st, exists evs r,
    run_with (authorizerCallback mw) t st
    = (mkState (st_req st) (st_log st ++ evs), r).
Proof.
  induction t as [v|e|err approved k IH]; intros st; simpl.
  - exists [], (Ret v). rewrite app_nil_r. now destruct st.
  - exists [], (Throw e). rewrite app_nil_r. now destruct st.
  - destruct (authorizerCallback_frame err approved st) as [evs1 [r1 H1]].
    rewrite H1.
    destruct (IH r1 (mkState (st_req st) (st_log st ++ evs1)))
      as [evs2 [r2 H2]].
    rewrite H2. simpl. exists (evs1 ++ evs2), r2.
    now rewrite app_assoc.
Qed.

(** An authorizer that calls back at most once ends in the state its
    one invocation of the callback, if any, has left. *)
Lemma run_with_at_most_once (t : behaviour) (st : state) :
  calls_back_at_most_once t ->
  fst (run_with (authorizerCallback mw) t st)
  = match t with
    | Invoke err approved _ => fst (authorizerCallback mw err approved st)
    | _ => st
    end.
Proof.
  destruct t as [v|e|err approved k]; simpl; intros H; try reflexivity.
  destruct (authorizerCallback mw err approved st) as [st' r].
  specialize (H r). destruct (k r); simpl in *; [reflexivity..|contradiction].
Qed.

Lemma asked_log (req : request) :
  st_log (asked auth mw req) = [EvAuthorize (authorizer_args auth mw req)].
Proof. unfold asked. now destruct (credentials (auth req)). Qed.

Lemma asked_req (req : request) :
  st_req (asked auth mw req)
  = attach req (fst (credentials (auth req))) (snd (credentials (auth req))).
Proof. unfold asked. now destruct (credentials (auth req)). Qed.

Lemma count_next_asked (req : request) :
  count_next (st_log (asked auth mw req)) = 0%nat.
Proof. now rewrite asked_log. Qed.

Lemma count_next_unauthorized (st : state) :
  count_next (st_log (fst (unauthorized mw st))) = count_next (st_log st).
Proof.
  destruct (unauthorized_frame mw st) as [evs [r [H Hevs]]].
  rewrite H. simpl. rewrite count_next_app, (count_next_response evs Hevs).
  lia.
Qed.

(** [next] is called once when the decision is to allow, and not at all
    otherwise. *)
Lemma count_next_handle (req : request) :
  (isAsync mw = true ->
   calls_back_at_most_once
     (apply (authorizer mw) (authorizer_args auth mw req))) ->
  count_next (st_log (fst (handle auth mw req)))
  = match decide auth mw req with
    | Some Allow => 1%nat
    | _ => 0%nat
    end.
Proof.
  intros Hcontract. unfold decide.
  destruct (negb (is_some (auth req)) && negb (allowEmptyCredentials mw))
    eqn:Hgate.
  - apply andb_true_iff in Hgate. destruct Hgate as [Hnone Hallow].
    apply negb_true_iff in Hnone, Hallow.
    destruct (auth req) eqn:Hauth; [discriminate|].
    rewrite handle_denied_at_once by assumption.
    now rewrite count_next_unauthorized.
  - rewrite handle_asks by exact Hgate. unfold answer.
    destruct (isAsync mw).
    + rewrite run_with_at_most_once by (apply Hcontract; reflexivity).
      destruct (apply (authorizer mw) (authorizer_args auth mw req))
        as [v|e|err approved k].
      * apply count_next_asked.
      * apply count_next_asked.
      * destruct (is_error err) eqn:E.
        -- rewrite authorizerCallback_error by exact E.
           apply count_next_asked.
        -- rewrite authorizerCallback_no_error by exact E.
           destruct (truthy approved).
           ++ rewrite next_run. simpl.
              now rewrite count_next_app, count_next_asked.
           ++ rewrite count_next_unauthorized. apply count_next_asked.
    + destruct (run_plain (apply (authorizer mw) (authorizer_args auth mw req)))
        as [verdict|e].
      * destruct (truthy verdict).
        -- rewrite next_run. simpl.
           now rewrite count_next_app, count_next_asked.
        -- rewrite count_next_unauthorized. apply count_next_asked.
      * apply count_next_asked.
Qed.

(** When the middleware goes on to the authorizer, the request carries
    the credentials from then on and the log starts with the call of the
    authorizer. *)
Lemma handle_asks_frame (req : request) :
  negb (is_some (auth req)) && negb (allowEmptyCredentials mw) = false ->
  exists evs r,
    handle auth mw req
    = (mkState (st_req (asked auth mw req))
         (EvAuthorize (authorizer_args auth mw req) :: evs), r).
Proof.
  intros Hgate. rewrite handle_asks by exact Hgate.
  destruct (isAsync mw).
  - destruct (run_with_frame
                (apply (authorizer mw) (authorizer_args auth mw req))
                (asked auth mw req)) as [evs [r H]].
    rewrite H, asked_log. exists evs, r. reflexivity.
  - destruct (run_plain (apply (authorizer mw) (authorizer_args auth mw req)))
      as [verdict|e].
    + destruct (truthy verdict).
      * rewrite next_run, asked_log.
        exists [EvNext], (Ret VUndefined). reflexivity.
      * destruct (unauthorized_frame mw (asked auth mw req))
          as [evs [r [H _]]].
        rewrite H, asked_log. exists evs, r. reflexivity.
    + exists [], (Throw e).
      rewrite <- asked_log. now destruct (asked auth mw req).
Qed.

(** A denied request: the log ends with the denial, after the call of
    the authorizer if there was one. *)
Lemma handle_denied (req : request) (realmName response : value) :
  (isAsync mw = true ->
   calls_back_at_most_once
     (apply (authorizer mw) (authorizer_args auth mw req))) ->
  decide auth mw req = Some Deny ->
  let at_once := negb (is_some (auth req)) && negb (allowEmptyCredentials mw) in
  let req' := if at_once then req else st_req (asked auth mw req) in
  (challenge mw = true -> run_plain (realm mw [AReq req']) = Ret realmName) ->
  run_plain (getResponseBody mw [AReq req']) = Ret response ->
  fst (handle auth mw req)
  = mkState req'
      ((if at_once then [] else [EvAuthorize (authorizer_args auth mw req)])
       ++ denial_events mw realmName response).
Proof.
  intros Hcontract Hdeny at_once req' Hrealm Hbody.
  unfold decide in Hdeny. fold at_once in Hdeny.
  subst req'. destruct at_once eqn:Hgate.
  - apply andb_true_iff in Hgate. destruct Hgate as [Hnone Hallow].
    apply negb_true_iff in Hnone, Hallow.
    destruct (auth req) eqn:Hauth; [discriminate|].
    rewrite handle_denied_at_once by assumption.
    now rewrite (unauthorized_returns mw (mkState req []) realmName response).
  - assert (Hun :
      fst (unauthorized mw (asked auth mw req))
      = mkState (st_req (asked auth mw req))
          ([EvAuthorize (authorizer_args auth mw req)]
           ++ denial_events mw realmName response)).
    { rewrite (unauthorized_returns mw (asked auth mw req) realmName response)
        by assumption.
      now rewrite asked_log. }
    rewrite handle_asks by exact Hgate. unfold answer in Hdeny.
    destruct (isAsync mw).
    + rewrite run_with_at_most_once by (apply Hcontract; reflexivity).
      destruct (apply (authorizer mw) (authorizer_args auth mw req))
        as [v|e|err approved k]; try discriminate.
      destruct (is_error err) eqn:E; [discriminate|].
      rewrite authorizerCallback_no_error by exact E.
      destruct (truthy approved); [discriminate | exact Hun].
    + destruct (run_plain (apply (authorizer mw) (authorizer_args auth mw req)))
        as [verdict|e]; [|discriminate].
      destruct (truthy verdict); [discriminate | exact Hun].
Qed.

End Decision.

(** C4.  For every request in which the parser finds no credentials:
    when [allowEmptyCredentials] is false the middleware does what
    [unauthorized()] does and nothing else: the request is left as it
    was, only calls on the response are made (the authorizer is not
    called, nor [next]), and the response is the 401 denial as soon as the
    realm and body producers return; when [allowEmptyCredentials] is true
    the request gets [null]/[null] credentials attached, the authorizer is
    called with them (after the request when [passRequest], before the
    callback when asynchronous), and [next] is called, once, exactly when
    the authorizer approves.  An asynchronous authorizer is taken to call
    back at most once. *)
Theorem C4_no_credentials :
  forall (auth : request -> option (jsstring * jsstring))
         (mw : middleware) (req : request),
    auth req = None ->
    (isAsync mw = true ->
     calls_back_at_most_once
       (apply (authorizer mw) (authorizer_args auth mw req))) ->
    (allowEmptyCredentials mw = false ->
     handle auth mw req = unauthorized mw (mkState req [])
     /\ (exists evs r,
           handle auth mw req = (mkState req evs, r)
           /\ forallb is_response_event evs = true
           /\ existsb is_authorize evs = false
           /\ count_next evs = 0%nat)
     /\ (forall realmName response,
           (challenge mw = true ->
            run_plain (realm mw [AReq req]) = Ret realmName) ->
           run_plain (getResponseBody mw [AReq req]) = Ret response ->
           exists evs,
             handle auth mw req = (mkState req evs, Ret VUndefined)
             /\ existsb (is_status 401) evs = true))
    /\ (allowEmptyCredentials mw = true ->
        let req' := attach req VNull VNull in
        let args :=
          (if passRequest mw then [AReq req'] else [])
            ++ [AVal VNull; AVal VNull]
            ++ (if isAsync mw then [ACallback] else []) in
        exists evs r,
          handle auth mw req = (mkState req' (EvAuthorize args :: evs), r)
          /\ (count_next evs = 1%nat <-> answer mw args = Some true)
          /\ (count_next evs = 0%nat <-> answer mw args <> Some true)).
Proof.
  intros auth mw req Hauth Hcontract. split; intros Hallow.
  - pose proof (handle_denied_at_once auth mw req Hauth Hallow) as Hrun.
    split; [exact Hrun|]. split.
    + destruct (unauthorized_frame mw (mkState req [])) as [evs [r [H Hevs]]].
      exists evs, r. rewrite Hrun, H. simpl.
      split; [reflexivity|]. split; [exact Hevs|]. split.
      * apply not_true_is_false. intros E. apply existsb_exists in E.
        destruct E as [e [Hin He]]. rewrite forallb_forall in Hevs.
        specialize (Hevs e Hin). destruct e; discriminate.
      * now apply count_next_response.
    + intros realmName response Hrealm Hbody.
      exists (denial_events mw realmName response).
      rewrite Hrun.
      rewrite (unauthorized_returns mw (mkState req []) realmName response)
        by assumption.
      split; [reflexivity|].
      unfold denial_events. rewrite existsb_app. simpl. apply orb_true_r.
  - intros req' args.
    assert (Hgate :
      negb (is_some (auth req)) && negb (allowEmptyCredentials mw) = false)
      by (rewrite Hallow; apply andb_false_r).
    assert (Hargs : authorizer_args auth mw req = args)
      by (unfold authorizer_args; rewrite Hauth; reflexivity).
    destruct (handle_asks_frame auth mw req Hgate) as [evs [r H]].
    rewrite asked_req, Hauth in H. simpl in H. rewrite Hargs in H.
    exists evs, r. split; [exact H|].
    pose proof (count_next_handle auth mw req Hcontract) as Hcount.
    rewrite H in Hcount. simpl in Hcount.
    change (EvAuthorize args :: evs) with ([EvAuthorize args] ++ evs) in Hcount.
    rewrite count_next_app in Hcount. simpl in Hcount.
    unfold decide in Hcount. rewrite Hgate, Hargs in Hcount.
    rewrite Hcount.
    destruct (answer mw args) as [[|]|]; split; split;
      congruence || discriminate.
Qed.

Lemma C4_no_credentials_witness :
  no_credentials bare_request = None
  /\ (exists evs r,
        handle no_credentials (built (staticUserAuth VUndefined)) bare_request
        = (mkState bare_request evs, r)
        /\ existsb is_authorize evs = false)
  /\ (exists evs r,
        handle no_credentials (built emptyCredentialsAuth) bare_request
        = (mkState (attach bare_request VNull VNull)
             (EvAuthorize [AVal VNull; AVal VNull] :: evs), r)
        /\ count_next evs = 1%nat).
Proof.
  split; [reflexivity|]. split.
  - destruct (C4_no_credentials no_credentials
                (built (staticUserAuth VUndefined)) bare_request eq_refl
                (fun H => match Bool.diff_false_true H with end))
      as [Hdeny _].
    destruct (Hdeny eq_refl) as [_ [[evs [r [H [_ [Hno _]]]]] _]].
    exists evs, r. split; [exact H | exact Hno].
  - destruct (C4_no_credentials no_credentials
                (built emptyCredentialsAuth) bare_request eq_refl
                (fun H => match Bool.diff_false_true H with end))
      as [_ Hask].
    destruct (Hask eq_refl) as [evs [r [H [Hcount _]]]].
    exists evs, r. split; [exact H|]. apply Hcount. reflexivity.
Defined.

(** C5.  When the completion callback is invoked with an error (a
    value that is neither [null] nor [undefined]), it throws: the failure
    raised by [assert.ifError] leaves the callback, whatever [approved]
    is, and nothing is done to the response, to the request or to the
    pipeline.  When an asynchronous authorizer reports such an error and
    lets the failure through, the whole middleware call ends with that
    failure, after the call of the authorizer and nothing else: there is
    no 401 response and [next] is not called. *)
Theorem C5_callback_error_is_fatal :
  forall (mw : middleware) (err approved : value) (st : state),
    is_error err = true ->
    authorizerCallback mw err approved st = (st, Throw (IfError err))
    /\ (forall (auth : request -> option (jsstring * jsstring))
               (req : request) (k : result value -> behaviour),
          isAsync mw = true ->
          negb (is_some (auth req)) && negb (allowEmptyCredentials mw) = false ->
          apply (authorizer mw) (authorizer_args auth mw req)
          = Invoke err approved k ->
          (forall e, k (Throw e) = Raise e) ->
          exists req',
            handle auth mw req
            = (mkState req' [EvAuthorize (authorizer_args auth mw req)],
               Throw (IfError err))).
Proof.
  intros mw err approved st Herr.
  split; [now apply authorizerCallback_error|].
  intros auth req k Hasync Hgate Hcall Hk.
  exists (st_req (asked auth mw req)).
  rewrite handle_asks by exact Hgate.
  rewrite Hasync, Hcall. simpl.
  rewrite authorizerCallback_error by exact Herr.
  rewrite Hk. simpl. rewrite <- asked_log.
  now destruct (asked auth mw req).
Qed.

Lemma C5_callback_error_is_fatal_witness :
  is_error (VStr (lit "broken")) = true
  /\ exists req',
      handle (found (lit "Aererer") (lit "secretiveStuff"))
        (built (async_with (failingAuthorizer (VStr (lit "broken")))))
        bare_request
      = (mkState req'
           [EvAuthorize [AVal (VStr (lit "Aererer"));
                         AVal (VStr (lit "secretiveStuff")); ACallback]],
         Throw (IfError (VStr (lit "broken")))).
Proof.
  split; [reflexivity|].
  destruct (C5_callback_error_is_fatal
              (built (async_with (failingAuthorizer (VStr (lit "broken")))))
              (VStr (lit "broken")) VUndefined (mkState bare_request [])
              eq_refl) as [_ H].
  exact (H (found (lit "Aererer") (lit "secretiveStuff")) bare_request
           tail_call eq_refl eq_refl eq_refl (fun e => eq_refl)).
Defined.

(** [undefined] in the place of the error is no error: the callback
    goes on to the decision. *)
Example callback_undefined_error_denies :
  authorizerCallback (built no_options) VUndefined (VBool false)
    (mkState bare_request [])
  = (mkState bare_request [EvStatus 401; EvSend []], Ret VUndefined).
Proof. reflexivity. Qed.

Lemma challengeString_optional (realmName : value) :
  optional_string realmName = true ->
  challengeString realmName = basic_challenge realmName.
Proof.
  destruct realmName as [| | | |s|]; try discriminate; try reflexivity.
  intros _. destruct s; reflexivity.
Qed.

Lemma headers_of_denial (mw : middleware) (realmName response : value) :
  headers_of (denial_events mw realmName response)
  = (if challenge mw
     then [(lit "WWW-Authenticate", challengeString realmName)] else []).
Proof.
  unfold denial_events. destruct (challenge mw); destruct response; reflexivity.
Qed.

(** C6.  For every denied request whose denial is produced (the realm
    and the body producers return), the response gets a header exactly
    when [challenge] is true, and then exactly one, [WWW-Authenticate].
    Its value is [Basic realm="s"] with [s] copied as it is when
    [realm(req)] is a non-empty string [s], and [Basic] when [realm(req)]
    is [undefined], [null] or the empty string.  The same holds for
    [unauthorized()] run in any state.  An asynchronous authorizer is
    taken to call back at most once. *)
Theorem C6_challenge_header :
  forall (auth : request -> option (jsstring * jsstring))
         (mw : middleware) (req : request) (realmName response : value),
    (isAsync mw = true ->
     calls_back_at_most_once
       (apply (authorizer mw) (authorizer_args auth mw req))) ->
    decide auth mw req = Some Deny ->
    (challenge mw = true ->
     run_plain (realm mw [AReq (request_seen auth mw req)]) = Ret realmName) ->
    run_plain (getResponseBody mw [AReq (request_seen auth mw req)])
    = Ret response ->
    let log := st_log (fst (handle auth mw req)) in
    existsb (is_status 401) log = true
    /\ (challenge mw = false -> headers_of log = [])
    /\ (challenge mw = true ->
        exists val, headers_of log = [(lit "WWW-Authenticate", val)])
    /\ (forall s, challenge mw = true -> realmName = VStr s -> s <> [] ->
        headers_of log
        = [(lit "WWW-Authenticate",
            lit "Basic realm=" ++ dquote ++ s ++ dquote)])
    /\ (challenge mw = true ->
        realmName = VUndefined \/ realmName = VNull \/ realmName = VStr [] ->
        headers_of log = [(lit "WWW-Authenticate", lit "Basic")])
    /\ (forall (st : state) (realmName' response' : value),
          (challenge mw = true ->
           run_plain (realm mw [AReq (st_req st)]) = Ret realmName') ->
          run_plain (getResponseBody mw [AReq (st_req st)]) = Ret response' ->
          exists added,
            unauthorized mw st
            = (mkState (st_req st) (st_log st ++ added), Ret VUndefined)
            /\ (challenge mw = false -> headers_of added = [])
            /\ (challenge mw = true -> optional_string realmName' = true ->
                headers_of added
                = [(lit "WWW-Authenticate", basic_challenge realmName')])).
Proof.
  intros auth mw req realmName response Hcontract Hdeny Hrealm Hbody log.
  pose proof (handle_denied auth mw req realmName response
                Hcontract Hdeny Hrealm Hbody) as Hrun.
  assert (Hlog :
    headers_of log
    = (if challenge mw
       then [(lit "WWW-Authenticate", challengeString realmName)] else [])).
  { subst log. rewrite Hrun. cbn [st_log].
    rewrite <- (headers_of_denial mw realmName response).
    destruct (negb (is_some (auth req)) && negb (allowEmptyCredentials mw));
      reflexivity. }
  split.
  { subst log. rewrite Hrun. cbn [st_log].
    rewrite existsb_app. unfold denial_events. rewrite existsb_app.
    simpl. now rewrite !orb_true_r. }
  split; [intros C; now rewrite Hlog, C|].
  split; [intros C; rewrite Hlog, C; eexists; reflexivity|].
  split.
  { intros s C -> Hs. rewrite Hlog, C.
    rewrite challengeString_optional by reflexivity.
    destruct s; [contradiction | reflexivity]. }
  split.
  { intros C [->|[->| ->]]; rewrite Hlog, C; reflexivity. }
  intros st realmName' response' Hrealm' Hbody'.
  exists (denial_events mw realmName' response').
  split; [now apply unauthorized_returns|].
  rewrite headers_of_denial.
  split; [now intros ->|].
  intros C O. now rewrite C, (challengeString_optional realmName' O).
Qed.

Lemma C6_challenge_header_witness :
  decide no_credentials
    (built (with_challenge_realm (Val (VStr (lit "test"))))) bare_request
  = Some Deny
  /\ headers_of
       (st_log (fst (handle no_credentials
                       (built (with_challenge_realm (Val (VStr (lit "test")))))
                       bare_request)))
     = [(lit "WWW-Authenticate",
         lit "Basic realm=" ++ dquote ++ lit "test" ++ dquote)].
Proof.
  split; [reflexivity|].
  destruct (C6_challenge_header no_credentials
              (built (with_challenge_realm (Val (VStr (lit "test")))))
              bare_request (VStr (lit "test")) (VStr [])
              (fun H => match Bool.diff_false_true H with end)
              eq_refl (fun _ => eq_refl) eq_refl)
    as [_ [_ [_ [Hheaders _]]]].
  apply (Hheaders (lit "test")); [reflexivity | reflexivity | discriminate].
Defined.

(** A realm that is a number is printed as the template literal prints
    it: digits up to 21 of them, the exponent form beyond. *)
Example challengeString_of_numbers :
  challengeString (VNum 5) = lit "Basic realm=" ++ dquote ++ lit "5" ++ dquote
  /\ challengeString (VNum (10 ^ 21))
     = lit "Basic realm=" ++ dquote ++ lit "1e+21" ++ dquote
  /\ challengeString (VNum (2 ^ 60))
     = lit "Basic realm=" ++ dquote ++ lit "1152921504606847000" ++ dquote
  /\ challengeString (VNum 0) = lit "Basic".
Proof. repeat split; vm_compute; reflexivity. Qed.

(** C7.  For every denied request whose denial is produced (the realm
    and the body producers return), the response ends with the status 401
    and the value of [unauthorizedResponse(req)] as its body: sent with
    [send] as it is when it is a string, with [json] when it is anything
    else.  Nothing else is sent, before or after.  The same holds for
    [unauthorized()] run in any state.  An asynchronous authorizer is
    taken to call back at most once. *)
Theorem C7_denial_body :
  forall (auth : request -> option (jsstring * jsstring))
         (mw : middleware) (req : request) (realmName response : value),
    (isAsync mw = true ->
     calls_back_at_most_once
       (apply (authorizer mw) (authorizer_args auth mw req))) ->
    decide auth mw req = Some Deny ->
    (challenge mw = true ->
     run_plain (realm mw [AReq (request_seen auth mw req)]) = Ret realmName) ->
    run_plain (getResponseBody mw [AReq (request_seen auth mw req)])
    = Ret response ->
    (exists before,
       st_log (fst (handle auth mw req))
       = before ++ [EvStatus 401; body_event response]
       /\ existsb is_body before = false
       /\ existsb (is_status 401) before = false)
    /\ (forall body, response = VStr body -> body_event response = EvSend body)
    /\ ((forall body, response <> VStr body) ->
        body_event response = EvJson response)
    /\ (forall (st : state) (realmName' response' : value),
          (challenge mw = true ->
           run_plain (realm mw [AReq (st_req st)]) = Ret realmName') ->
          run_plain (getResponseBody mw [AReq (st_req st)]) = Ret response' ->
          exists headers,
            unauthorized mw st
            = (mkState (st_req st)
                 (st_log st ++ headers ++ [EvStatus 401; body_event response']),
               Ret VUndefined)
            /\ existsb is_body headers = false).
Proof.
  intros auth mw req realmName response Hcontract Hdeny Hrealm Hbody.
  pose proof (handle_denied auth mw req realmName response
                Hcontract Hdeny Hrealm Hbody) as Hrun.
  split.
  { exists ((if negb (is_some (auth req)) && negb (allowEmptyCredentials mw)
             then [] else [EvAuthorize (authorizer_args auth mw req)])
            ++ (if challenge mw
                then [EvSet www_authenticate (challengeString realmName)]
                else [])).
    rewrite Hrun. cbn [st_log]. unfold denial_events.
    split; [now rewrite <- !app_assoc|].
    destruct (negb (is_some (auth req)) && negb (allowEmptyCredentials mw));
      destruct (challenge mw); split; reflexivity. }
  split; [intros body ->; reflexivity|].
  split.
  { intros H. destruct response; try reflexivity.
    exfalso. now apply (H s). }
  intros st realmName' response' Hrealm' Hbody'.
  exists (if challenge mw
          then [EvSet www_authenticate (challengeString realmName')]
          else []).
  split; [now apply unauthorized_returns|].
  destruct (challenge mw); reflexivity.
Qed.

Lemma C7_denial_body_witness :
  (exists before,
     st_log (fst (handle no_credentials
                    (built (with_body
                              (Val (VObj [(lit "foo", VStr (lit "bar"))]))))
                    bare_request))
     = before ++ [EvStatus 401; EvJson (VObj [(lit "foo", VStr (lit "bar"))])])
  /\ (exists before,
        st_log (fst (handle no_credentials
                       (built (with_body (Val (VStr (lit "Haaaaaha")))))
                       bare_request))
        = before ++ [EvStatus 401; EvSend (lit "Haaaaaha")]).
Proof.
  split.
  - destruct (C7_denial_body no_credentials
                (built (with_body (Val (VObj [(lit "foo", VStr (lit "bar"))]))))
                bare_request VUndefined (VObj [(lit "foo", VStr (lit "bar"))])
                (fun H => match Bool.diff_false_true H with end)
                eq_refl
                (fun H => match Bool.diff_false_true H with end) eq_refl)
      as [[before [Hlog _]] _].
    exists before. exact Hlog.
  - destruct (C7_denial_body no_credentials
                (built (with_body (Val (VStr (lit "Haaaaaha")))))
                bare_request VUndefined (VStr (lit "Haaaaaha"))
                (fun H => match Bool.diff_false_true H with end)
                eq_refl
                (fun H => match Bool.diff_false_true H with end) eq_refl)
      as [[before [Hlog _]] _].
    exists before. exact Hlog.
Defined.

(** C8.  For every request, whatever the mode of the authorizer
    (synchronous or asynchronous, with or without the request), [next] is
    called exactly once when the decision is Allow and not at all when
    it is Deny, nor when no decision is reached.  An asynchronous
    authorizer is taken to call back at most once. *)
Theorem C8_next_once_on_allow :
  forall (auth : request -> option (jsstring * jsstring))
         (mw : middleware) (req : request),
    (isAsync mw = true ->
     calls_back_at_most_once
       (apply (authorizer mw) (authorizer_args auth mw req))) ->
    let calls := count_next (st_log (fst (handle auth mw req))) in
    (decide auth mw req = Some Allow -> calls = 1%nat)
    /\ (decide auth mw req = Some Deny -> calls = 0%nat)
    /\ (decide auth mw req = None -> calls = 0%nat).
Proof.
  intros auth mw req Hcontract calls. subst calls.
  rewrite (count_next_handle auth mw req Hcontract).
  repeat split; intros ->; reflexivity.
Qed.

Lemma myAsyncAuthorizer_calls_back_once (args : list jsany) :
  calls_back_at_most_once (myAsyncAuthorizer args).
Proof.
  unfold myAsyncAuthorizer.
  destruct (myAuthorizer (argument 0 args) (argument 1 args)); simpl; auto.
  intros [v|e]; exact I.
Qed.

Lemma C8_next_once_on_allow_witness :
  decide (found (lit "Aererer") (lit "secretiveStuff"))
    (built (async_with myAsyncAuthorizer)) bare_request = Some Allow
  /\ count_next
       (st_log (fst (handle (found (lit "Aererer") (lit "secretiveStuff"))
                       (built (async_with myAsyncAuthorizer)) bare_request)))
     = 1%nat.
Proof.
  split; [reflexivity|].
  apply (C8_next_once_on_allow
           (found (lit "Aererer") (lit "secretiveStuff"))
           (built (async_with myAsyncAuthorizer)) bare_request
           (fun _ => myAsyncAuthorizer_calls_back_once _)).
  reflexivity.
Defined.

(** Why the callback contract is assumed: an authorizer that calls back
    twice gets [next] called twice. *)
Example next_twice_when_called_back_twice :
  count_next
    (st_log (fst (handle (found (lit "Aererer") (lit "secretiveStuff"))
                    (built (async_with twiceAuthorizer)) bare_request)))
  = 2%nat.
Proof. reflexivity. Qed.

(** The defaults never trip the assertions: the object check is on the
    given [users] when it is truthy, and passes otherwise. *)
Lemma users_check (options : Options.t) :
  jsstring_eqb
    (typeof_jsval (or_else (Options.users options) (Val (VObj []))))
    (lit "object")
  = negb (users_at_fault options).
Proof.
  unfold users_at_fault, or_else.
  destruct (truthy_jsval (Options.users options)); [|reflexivity].
  now rewrite andb_true_l, negb_involutive.
Qed.

Lemma authorizer_check (options : Options.t) (policy : jsfun) :
  jsstring_eqb
    (typeof_jsval (or_else (Options.authorizer options) (Fun policy)))
    (lit "function")
  = negb (authorizer_at_fault options).
Proof.
  unfold authorizer_at_fault, or_else.
  destruct (truthy_jsval (Options.authorizer options)); [|reflexivity].
  now rewrite andb_true_l, negb_involutive.
Qed.

Lemma or_else_truthy (a b : jsval) : truthy_jsval a = true -> or_else a b = a.
Proof. unfold or_else. now intros ->. Qed.

Lemma or_else_falsy (a b : jsval) : truthy_jsval a = false -> or_else a b = b.
Proof. unfold or_else. now intros ->. Qed.

Lemma buildMiddleware_cases (options : Options.t) :
  buildMiddleware options =
    if users_at_fault options
    then Throw (AssertionError (users_message (Options.users options)))
    else if authorizer_at_fault options
    then Throw (AssertionError (authorizer_message (Options.authorizer options)))
    else Ret (closure options).
Proof.
  unfold buildMiddleware, closure.
  rewrite users_check, authorizer_check.
  destruct (users_at_fault options) eqn:U.
  - simpl. unfold users_at_fault in U. apply andb_true_iff in U.
    destruct U as [T _]. now rewrite (or_else_truthy _ _ T).
  - simpl. destruct (authorizer_at_fault options) eqn:A; simpl; [|reflexivity].
    unfold authorizer_at_fault in A. apply andb_true_iff in A.
    destruct A as [T _]. now rewrite (or_else_truthy _ _ T).
Qed.

(** C9 as it is stated fails: the number 0 as [users] and [false] as
    [authorizer] are not an object and not a function, and the middleware
    is built all the same, on the defaults. *)
Lemma C9_counterexample :
  typeof_jsval (Val (VNum 0)) <> lit "object"
  /\ (exists mw, buildMiddleware (with_users (Val (VNum 0))) = Ret mw
                 /\ users mw = Val (VObj []))
  /\ typeof_jsval (Val (VBool false)) <> lit "function"
  /\ (exists mw, buildMiddleware (with_authorizer (Val (VBool false))) = Ret mw).
Proof.
  split; [intros E; discriminate E|].
  split; [eexists; split; reflexivity|].
  split; [intros E; discriminate E|]. eexists; reflexivity.
Qed.

(** Options that are rejected make [buildMiddleware] throw: the
    assertion about the users when [users] is at fault, the one about the
    authorizer otherwise. *)
Lemma buildMiddleware_rejects :
  forall options : Options.t,
    rejected options = true ->
    exists message,
      buildMiddleware options = Throw (AssertionError message)
      /\ (message = users_message (Options.users options)
          \/ message = authorizer_message (Options.authorizer options)).
Proof.
  intros options H. unfold buildMiddleware.
  set (U := or_else (Options.users options) (Val (VObj []))).
  set (A := or_else (Options.authorizer options)
              (Fun (staticUsersAuthorizer U))).
  unfold rejected in H.
  destruct (jsstring_eqb (typeof_jsval U) (lit "object")) eqn:EU.
  - (* the users are fine, the authorizer is at fault *)
    assert (Hu : truthy_jsval (Options.users options)
                 && negb (jsstring_eqb (typeof_jsval (Options.users options))
                            (lit "object")) = false).
    { subst U. unfold or_else in EU.
      destruct (truthy_jsval (Options.users options)); [|reflexivity].
      now rewrite EU. }
    rewrite Hu, orb_false_l in H. apply andb_true_iff in H.
    destruct H as [Ta Ha]. apply negb_true_iff in Ha.
    assert (EA : A = Options.authorizer options)
      by (subst A; unfold or_else; now rewrite Ta).
    rewrite EA, Ha. simpl.
    eexists. split; [reflexivity | now right].
  - assert (EU' : U = Options.users options).
    { subst U. unfold or_else in *.
      destruct (truthy_jsval (Options.users options));
        [reflexivity | discriminate EU]. }
    rewrite EU'. simpl.
    eexists. split; [reflexivity | now left].
Qed.

(** Conversely, options that are not rejected are built, with the
    defaults in the place of falsy [users] and [authorizer]. *)
Lemma buildMiddleware_accepts (options : Options.t) :
  rejected options = false ->
  exists mw,
    buildMiddleware options = Ret mw
    /\ users mw = or_else (Options.users options) (Val (VObj []))
    /\ authorizer mw
       = or_else (Options.authorizer options)
           (Fun (staticUsersAuthorizer (users mw))).
Proof.
  intros H. unfold buildMiddleware. cbn [users authorizer].
  set (U := or_else (Options.users options) (Val (VObj []))).
  set (A := or_else (Options.authorizer options)
              (Fun (staticUsersAuthorizer U))).
  unfold rejected in H.
  apply orb_false_iff in H. destruct H as [Hu Ha].
  assert (EU : jsstring_eqb (typeof_jsval U) (lit "object") = true).
  { subst U. unfold or_else.
    destruct (truthy_jsval (Options.users options)); [|reflexivity].
    rewrite andb_true_l in Hu. now apply negb_false_iff in Hu. }
  assert (EA : jsstring_eqb (typeof_jsval A) (lit "function") = true).
  { subst A. unfold or_else.
    destruct (truthy_jsval (Options.authorizer options)); [|reflexivity].
    rewrite andb_true_l in Ha. now apply negb_false_iff in Ha. }
  rewrite EU, EA. simpl. eexists. split; [reflexivity|]. split; reflexivity.
Qed.

(** C9, amended.  For every options object whose [users] is a truthy
    value that is not of type object, or whose [authorizer] is a truthy
    value that is not a function, [buildMiddleware] throws an
    AssertionError and returns no middleware: the one about the users or
    the one about the authorizer.  For every other options object it
    returns a middleware, so that construction succeeds exactly when
    neither field is a truthy value of the wrong type.  A falsy [users] or
    [authorizer] is never the cause of a failure: when [users] is falsy a
    failure is about the authorizer, when [authorizer] is falsy a failure
    is about the users, and in the middleware that is built a falsy field
    is replaced by its default, the empty object or the built-in policy
    over the users. *)
Theorem C9_configuration_errors_at_construction :
  forall options : Options.t,
    (rejected options = true ->
     exists message,
       buildMiddleware options = Throw (AssertionError message)
       /\ (message = users_message (Options.users options)
           \/ message = authorizer_message (Options.authorizer options)))
    /\ (rejected options = false ->
        exists mw,
          buildMiddleware options = Ret mw
          /\ users mw
             = (if truthy_jsval (Options.users options)
                then Options.users options else Val (VObj []))
          /\ authorizer mw
             = (if truthy_jsval (Options.authorizer options)
                then Options.authorizer options
                else Fun (staticUsersAuthorizer (users mw))))
    /\ ((exists mw, buildMiddleware options = Ret mw)
        <-> rejected options = false)
    /\ (truthy_jsval (Options.users options) = false ->
        forall message,
          buildMiddleware options = Throw (AssertionError message) ->
          message = authorizer_message (Options.authorizer options))
    /\ (truthy_jsval (Options.authorizer options) = false ->
        forall message,
          buildMiddleware options = Throw (AssertionError message) ->
          message = users_message (Options.users options))
    /\ (truthy_jsval (Options.users options) = false ->
        truthy_jsval (Options.authorizer options) = false ->
        exists mw,
          buildMiddleware options = Ret mw
          /\ users mw = Val (VObj [])
          /\ authorizer mw = Fun (staticUsersAuthorizer (Val (VObj [])))).
Proof.
  intros options.
  assert (Haccepts : rejected options = false ->
    exists mw,
      buildMiddleware options = Ret mw
      /\ users mw
         = (if truthy_jsval (Options.users options)
            then Options.users options else Val (VObj []))
      /\ authorizer mw
         = (if truthy_jsval (Options.authorizer options)
            then Options.authorizer options
            else Fun (staticUsersAuthorizer (users mw)))).
  { intros H. destruct (buildMiddleware_accepts options H) as [mw [B [U A]]].
    exists mw. split; [exact B|]. split; [exact U | exact A]. }
  split; [apply buildMiddleware_rejects|].
  split; [exact Haccepts|].
  split.
  { split.
    - intros [mw B]. destruct (rejected options) eqn:R; [|reflexivity].
      destruct (buildMiddleware_rejects options R) as [message [T _]].
      rewrite T in B. discriminate B.
    - intros R. destruct (Haccepts R) as [mw [B _]]. now exists mw. }
  split.
  { intros Tu message B. rewrite buildMiddleware_cases in B.
    assert (U : users_at_fault options = false)
      by (unfold users_at_fault; now rewrite Tu).
    rewrite U in B.
    destruct (authorizer_at_fault options); [|discriminate B].
    now injection B as <-. }
  split.
  { intros Ta message B. rewrite buildMiddleware_cases in B.
    assert (A : authorizer_at_fault options = false)
      by (unfold authorizer_at_fault; now rewrite Ta).
    rewrite A in B.
    destruct (users_at_fault options); [|discriminate B].
    now injection B as <-. }
  intros Tu Ta.
  assert (R : rejected options = false)
    by (unfold rejected; now rewrite Tu, Ta).
  destruct (Haccepts R) as [mw [B [U A]]].
  rewrite Tu in U. rewrite Ta, U in A.
  exists mw. auto.
Qed.

Lemma C9_configuration_errors_at_construction_witness :
  rejected (with_users (Val (VNum 5))) = true
  /\ exists message,
      buildMiddleware (with_users (Val (VNum 5)))
      = Throw (AssertionError message)
      /\ (message = users_message (Val (VNum 5))
          \/ message = authorizer_message (Val VUndefined)).
Proof.
  split; [reflexivity|].
  exact (proj1 (C9_configuration_errors_at_construction
                  (with_users (Val (VNum 5)))) eq_refl).
Defined.

Lemma jsstring_eqb_refl (a : jsstring) : jsstring_eqb a a = true.
Proof.
  unfold jsstring_eqb. destruct (jsstring_eq_dec a a); [reflexivity|].
  contradiction.
Qed.

(** With a table that is not empty, the built-in policy throws as soon
    as the user name is not a string. *)
Lemma staticUsersAuthorizer_non_string
    (table : list (jsstring * value)) (args : list jsany) :
  table <> [] ->
  is_string (argument 0 args) = false ->
  staticUsersAuthorizer (Val (VObj table)) args = Raise TypeError.
Proof.
  intros Htable Hname.
  unfold staticUsersAuthorizer, staticUsersAuthorizer_calls. simpl enumerable.
  destruct table as [|[i stored] rest]; [contradiction|].
  simpl keys. cbn [for_in_users].
  rewrite safeCompare_non_string by (left; exact Hname).
  reflexivity.
Qed.

(** C10.  [safeCompare] throws a TypeError as soon as one of its
    arguments is not a string, [null] in particular.  Consequently, with
    the built-in policy (no authorizer configured), a table that is not
    empty and [allowEmptyCredentials] set, a request without credentials
    makes the middleware call throw a TypeError: the [null] credentials
    are attached, the policy is called, and the call ends there, without
    any 401 response (nothing is done on the response) and without
    [next]. *)
Theorem C10_null_credentials_throw :
  (forall x y : jsany,
     is_string x = false \/ is_string y = false ->
     safeCompare x y = Throw TypeError)
  /\ (forall s : jsstring,
        safeCompare (AVal VNull) (str s) = Throw TypeError
        /\ safeCompare (str s) (AVal VNull) = Throw TypeError)
  /\ (forall (auth : request -> option (jsstring * jsstring))
             (options : Options.t) (req : request)
             (table : list (jsstring * value)),
        Options.users options = Val (VObj table) ->
        table <> [] ->
        truthy_jsval (Options.authorizer options) = false ->
        truthy_jsval (Options.allowEmptyCredentials options) = true ->
        auth req = None ->
        exists mw,
          buildMiddleware options = Ret mw
          /\ handle auth mw req
             = (mkState (attach req VNull VNull)
                  [EvAuthorize (authorizer_args auth mw req)],
                Throw TypeError)).
Proof.
  split; [exact safeCompare_non_string|].
  split; [intros s; split; reflexivity|].
  intros auth options req table Husers Htable Hauthorizer Hallow Hauth.
  eexists. split.
  - unfold buildMiddleware.
    rewrite Husers. unfold or_else. rewrite Hauthorizer. simpl truthy_jsval.
    cbv iota. simpl typeof_jsval. rewrite !jsstring_eqb_refl.
    simpl. reflexivity.
  - set (mw := mkMiddleware _ _ _ _ _ _ _ _).
    assert (Hgate :
      negb (is_some (auth req)) && negb (allowEmptyCredentials mw) = false)
      by (subst mw; simpl; rewrite Hallow; apply andb_false_r).
    rewrite handle_asks by exact Hgate.
    assert (Hname : is_string (argument 0 (authorizer_args auth mw req)) = false).
    { unfold authorizer_args. rewrite Hauth. simpl credentials. cbv iota.
      destruct (passRequest mw); reflexivity. }
    assert (Hcall :
      apply (authorizer mw) (authorizer_args auth mw req) = Raise TypeError).
    { subst mw. cbn [authorizer apply].
      now apply staticUsersAuthorizer_non_string. }
    rewrite Hcall.
    assert (Hasked :
      asked auth mw req
      = mkState (attach req VNull VNull)
          [EvAuthorize (authorizer_args auth mw req)])
      by (unfold asked; rewrite Hauth; reflexivity).
    rewrite Hasked. destruct (isAsync mw); reflexivity.
Qed.

Lemma C10_null_credentials_throw_witness :
  exists mw,
    buildMiddleware (staticUserAuth (VBool true)) = Ret mw
    /\ handle no_credentials mw bare_request
       = (mkState (attach bare_request VNull VNull)
            [EvAuthorize [AVal VNull; AVal VNull]],
          Throw TypeError).
Proof.
  destruct C10_null_credentials_throw as [_ [_ H]].
  destruct (H no_credentials (staticUserAuth (VBool true)) bare_request
              admin_table eq_refl
              (fun E => match E in (_ = l) return
                                match l with [] => False | _ => True end
                        with eq_refl => I end)
              eq_refl eq_refl eq_refl)
    as [mw [Hbuild Hrun]].
  exists mw. split; [exact Hbuild|].
  rewrite Hrun. f_equal. f_equal. f_equal.
  injection Hbuild as <-. reflexivity.
Defined.

(* ================================================================== *)
(** ** Further properties of the comparator *)
(* ================================================================== *)

Lemma same_bytes_sym (a b : jsstring) : same_bytes a b = same_bytes b a.
Proof.
  unfold same_bytes.
  destruct (list_eq_dec Z.eq_dec (Buffer.utf8 a) (Buffer.utf8 b)) as [E|NE];
    destruct (list_eq_dec Z.eq_dec (Buffer.utf8 b) (Buffer.utf8 a)) as [E'|NE'];
    try reflexivity.
  - exfalso. now apply NE'.
  - exfalso. now apply NE.
Qed.

Lemma is_string_str (x : jsany) :
  is_string x = true -> exists s, x = str s.
Proof.
  destruct x as [[| | | |s|]| |]; try discriminate. now exists s.
Qed.

(** X1.  [safeCompare] does not depend on the order of its arguments,
    although only the first one sizes the buffers: for any two arguments,
    strings or not, [safeCompare(x, y)] and [safeCompare(y, x)] return the
    same boolean or throw the same error. *)
Theorem safeCompare_symmetric :
  forall x y : jsany, safeCompare x y = safeCompare y x.
Proof.
  intros x y.
  destruct (is_string x) eqn:Hx.
  - destruct (is_string y) eqn:Hy.
    + destruct (is_string_str x Hx) as [a ->].
      destruct (is_string_str y Hy) as [b ->].
      rewrite !safeCompare_same_bytes. f_equal. apply same_bytes_sym.
    + rewrite (safeCompare_non_string x y) by (right; exact Hy).
      now rewrite (safeCompare_non_string y x) by (left; exact Hy).
  - rewrite (safeCompare_non_string x y) by (left; exact Hx).
    now rewrite (safeCompare_non_string y x) by (right; exact Hx).
Qed.

(** X2.  A string and a proper extension of it never compare equal, in
    either order: the shorter one first (the extension is cut to the
    buffer and the length check fails) or the longer one first (the
    shorter one is zero-padded). *)
Theorem safeCompare_proper_prefix :
  forall s more : jsstring,
    more <> [] ->
    safeCompare (str s) (str (s ++ more)) = Ret false
    /\ safeCompare (str (s ++ more)) (str s) = Ret false.
Proof.
  intros s more Hmore.
  assert (H : safeCompare (str s) (str (s ++ more)) = Ret false).
  { apply safeCompare_false_iff.
    now apply PrefixFacts.utf8_proper_prefix_differs. }
  split; [exact H|].
  rewrite safeCompare_same_bytes, same_bytes_sym, <- safeCompare_same_bytes.
  exact H.
Qed.

Lemma safeCompare_proper_prefix_witness :
  lit "thing" <> []
  /\ safeCompare (str (lit "some")) (str (lit "some" ++ lit "thing")) = Ret false
  /\ safeCompare (str (lit "some" ++ lit "thing")) (str (lit "some")) = Ret false.
Proof.
  split; [discriminate|].
  apply (safeCompare_proper_prefix (lit "some") (lit "thing")).
  discriminate.
Defined.

(* ================================================================== *)
(** ** Further properties of the construction and of the denial *)
(* ================================================================== *)

(** X3.  [buildMiddleware] returns a middleware exactly when [users] is
    falsy or of type object and [authorizer] is falsy or a function.
    Otherwise it throws an AssertionError and nothing else: the one about
    the users whenever [users] is at fault, also when the authorizer is at
    fault too, the one about the authorizer in the remaining case.  The
    middleware it returns holds the truthiness of the four flags, the
    given [users] or an empty object, the given authorizer or the
    built-in policy over those users, and the two producers. *)
Theorem buildMiddleware_outcome :
  forall options : Options.t,
    ((exists mw, buildMiddleware options = Ret mw)
     <-> users_at_fault options = false /\ authorizer_at_fault options = false)
    /\ (users_at_fault options = true ->
        buildMiddleware options
        = Throw (AssertionError (users_message (Options.users options))))
    /\ (users_at_fault options = false -> authorizer_at_fault options = true ->
        buildMiddleware options
        = Throw (AssertionError
                   (authorizer_message (Options.authorizer options))))
    /\ (forall mw, buildMiddleware options = Ret mw -> mw = closure options).
Proof.
  intros options. rewrite buildMiddleware_cases.
  destruct (users_at_fault options), (authorizer_at_fault options);
    (split; [split; [intros [mw H]; try discriminate H; auto
                    | intros [H1 H2]; try discriminate; eexists; reflexivity]|]);
    (split; [intros H; try discriminate H; reflexivity|]);
    (split; [intros H1 H2; try discriminate; reflexivity|]);
    intros mw H; try discriminate H; now injection H.
Qed.

Lemma built_closure (options : Options.t) (mw : middleware) :
  buildMiddleware options = Ret mw -> mw = closure options.
Proof.
  rewrite buildMiddleware_cases.
  destruct (users_at_fault options); [discriminate|].
  destruct (authorizer_at_fault options); [discriminate|].
  intros H. now injection H.
Qed.

Lemma ensureFunction_constant (option default : value) (args : list jsany) :
  run_plain (ensureFunction (Val option) default args)
  = Ret (match option with VUndefined => default | _ => option end).
Proof. destruct option; reflexivity. Qed.

(** X4.  When the [realm] option is a string or is not given
    ([undefined], [null]) and the [unauthorizedResponse] option is a plain
    value and not a function, [unauthorized()] of the middleware that is
    built never throws, whatever the request: it ends with status 401 and
    the [unauthorizedResponse] option as the body, where only [undefined]
    is replaced by the default empty string ([null], [false], 0 are sent
    as they are, with [json]); the challenge, when [challenge] is truthy,
    is [Basic realm="<realm>"] for a realm string that is not empty and
    [Basic] otherwise. *)
Theorem constant_producers_denial :
  forall (options : Options.t) (mw : middleware) (realmOption body : value)
         (st : state),
    buildMiddleware options = Ret mw ->
    Options.realm options = Val realmOption ->
    optional_string realmOption = true ->
    Options.unauthorizedResponse options = Val body ->
    unauthorized mw st
    = (mkState (st_req st)
         (st_log st
          ++ (if truthy_jsval (Options.challenge options)
              then [EvSet (lit "WWW-Authenticate") (basic_challenge realmOption)]
              else [])
          ++ [EvStatus 401; body_event (constant_body body)]),
       Ret VUndefined).
Proof.
  intros options mw realmOption body st Hbuild Hrealm Hoptional Hbody.
  rewrite (built_closure options mw Hbuild).
  rewrite <- (challengeString_optional realmOption Hoptional).
  rewrite (unauthorized_returns (closure options) st realmOption
             (constant_body body)).
  - reflexivity.
  - intros _. unfold closure. cbn [realm]. rewrite Hrealm.
    rewrite ensureFunction_constant. now destruct realmOption.
  - unfold closure. cbn [getResponseBody]. rewrite Hbody.
    now rewrite ensureFunction_constant.
Qed.

Lemma constant_producers_denial_witness :
  unauthorized (built (with_body (Val VNull))) (mkState bare_request [])
  = (mkState bare_request [EvStatus 401; EvJson VNull], Ret VUndefined)
  /\ unauthorized (built no_options) (mkState bare_request [])
     = (mkState bare_request [EvStatus 401; EvSend []], Ret VUndefined)
  /\ unauthorized (built (with_challenge_realm (Val (VStr (lit "test")))))
       (mkState bare_request [])
     = (mkState bare_request
          [EvSet (lit "WWW-Authenticate")
             (lit "Basic realm=" ++ dquote ++ lit "test" ++ dquote);
           EvStatus 401; EvSend []],
        Ret VUndefined).
Proof.
  split; [|split].
  - exact (constant_producers_denial (with_body (Val VNull))
             (built (with_body (Val VNull))) VUndefined VNull
             (mkState bare_request []) eq_refl eq_refl eq_refl eq_refl).
  - exact (constant_producers_denial no_options (built no_options)
             VUndefined VUndefined (mkState bare_request [])
             eq_refl eq_refl eq_refl eq_refl).
  - exact (constant_producers_denial
             (with_challenge_realm (Val (VStr (lit "test"))))
             (built (with_challenge_realm (Val (VStr (lit "test")))))
             (VStr (lit "test")) VUndefined (mkState bare_request [])
             eq_refl eq_refl eq_refl eq_refl).
Defined.

(** X5.  [unauthorized()] is all or nothing on the status and the
    body: either it returns, having added the whole denial to the log, or
    it throws what the realm or body producer threw, having sent no status
    and no body; at most the challenge header has been set by then.  It
    never calls [next] or the authorizer and leaves the request as it
    is. *)
Theorem unauthorized_all_or_nothing :
  forall (mw : middleware) (st : state),
    exists added r,
      unauthorized mw st = (mkState (st_req st) (st_log st ++ added), r)
      /\ forallb is_response_event added = true
      /\ match r with
         | Ret v =>
             v = VUndefined
             /\ exists realmName response,
                  added = denial_events mw realmName response
                  /\ run_plain (getResponseBody mw [AReq (st_req st)])
                     = Ret response
         | Throw e =>
             existsb (is_status 401) added = false
             /\ existsb is_body added = false
             /\ (length added <= 1)%nat
             /\ (run_plain (realm mw [AReq (st_req st)]) = Throw e
                 \/ run_plain (getResponseBody mw [AReq (st_req st)]) = Throw e)
         end.
Proof.
  intros mw st.
  unfold unauthorized, denial_events, bind, get_req, lift, emit, ret. simpl.
  destruct (challenge mw).
  - destruct (run_plain (realm mw [AReq (st_req st)])) as [realmName|e] eqn:R.
    + simpl.
      destruct (run_plain (getResponseBody mw [AReq (st_req st)]))
        as [response|e] eqn:B.
      * exists ([EvSet www_authenticate (challengeString realmName)]
                ++ [EvStatus 401; body_event response]), (Ret VUndefined).
        split; [destruct response; simpl; rewrite <- !app_assoc; reflexivity|].
        split; [destruct response; reflexivity|].
        split; [reflexivity|]. exists realmName, response. auto.
      * exists [EvSet www_authenticate (challengeString realmName)], (Throw e).
        repeat split; auto.
    + exists [], (Throw e). rewrite app_nil_r.
      split; [now destruct st|]. repeat split; auto.
  - simpl.
    destruct (run_plain (getResponseBody mw [AReq (st_req st)]))
      as [response|e] eqn:B.
    + exists ([] ++ [EvStatus 401; body_event response]), (Ret VUndefined).
      split; [destruct response; simpl; rewrite <- !app_assoc; reflexivity|].
      split; [destruct response; reflexivity|].
      split; [reflexivity|]. exists VUndefined, response. auto.
    + exists [], (Throw e). rewrite app_nil_r.
      split; [now destruct st|]. repeat split; auto.
Qed.

(* ================================================================== *)
(** ** Further properties of the middleware *)
(* ================================================================== *)

Section Outcomes.

Variable auth : request -> option (jsstring * jsstring).
Variable mw : middleware.

Lemma asks_gate (req : request) :
  negb (is_some (auth req)) && negb (allowEmptyCredentials mw)
  = negb (asks auth mw req).
Proof. unfold asks. now rewrite negb_orb. Qed.

Lemma response_no_authorize (evs : list event) :
  forallb is_response_event evs = true -> existsb is_authorize evs = false.
Proof.
  induction evs as [|e evs IH]; [reflexivity|].
  simpl. intros H. apply andb_true_iff in H. destruct H as [He Hevs].
  rewrite (IH Hevs). now destruct e.
Qed.

(** The callback never calls the authorizer. *)
Lemma authorizerCallback_no_authorize (err approved : value) (st : state) :
  exists evs r,
    authorizerCallback mw err approved st
    = (mkState (st_req st) (st_log st ++ evs), r)
    /\ existsb is_authorize evs = false.
Proof.
  destruct (is_error err) eqn:E.
  - rewrite authorizerCallback_error by exact E.
    exists [], (Throw (IfError err)). rewrite app_nil_r.
    split; [now destruct st | reflexivity].
  - rewrite authorizerCallback_no_error by exact E.
    destruct (truthy approved).
    + exists [EvNext], (Ret VUndefined). split; [apply next_run | reflexivity].
    + destruct (unauthorized_frame mw st) as [evs [r [H Hevs]]].
      exists evs, r. split; [exact H | now apply response_no_authorize].
Qed.

Lemma run_with_no_authorize (t : behaviour) :
  forall st, exists evs r,
    run_with (authorizerCallback mw) t st
    = (mkState (st_req st) (st_log st ++ evs), r)
    /\ existsb is_authorize evs = false.
Proof.
  induction t as [v|e|err approved k IH]; intros st; simpl.
  - exists [], (Ret v). rewrite app_nil_r. split; [now destruct st | reflexivity].
  - exists [], (Throw e). rewrite app_nil_r.
    split; [now destruct st | reflexivity].
  - destruct (authorizerCallback_no_authorize err approved st)
      as [evs1 [r1 [H1 N1]]].
    rewrite H1.
    destruct (IH r1 (mkState (st_req st) (st_log st ++ evs1)))
      as [evs2 [r2 [H2 N2]]].
    rewrite H2. simpl. exists (evs1 ++ evs2), r2.
    split; [now rewrite app_assoc|].
    now rewrite existsb_app, N1, N2.
Qed.

(** Once the authorizer is asked, it is not asked again. *)
Lemma handle_asks_once (req : request) :
  asks auth mw req = true ->
  exists evs r,
    handle auth mw req
    = (mkState (st_req (asked auth mw req))
         (EvAuthorize (authorizer_args auth mw req) :: evs), r)
    /\ existsb is_authorize evs = false.
Proof.
  intros Hasks.
  rewrite handle_asks by (rewrite asks_gate, Hasks; reflexivity).
  destruct (isAsync mw).
  - destruct (run_with_no_authorize
                (apply (authorizer mw) (authorizer_args auth mw req))
                (asked auth mw req)) as [evs [r [H N]]].
    rewrite H, asked_log. exists evs, r. split; [reflexivity | exact N].
  - destruct (run_plain (apply (authorizer mw) (authorizer_args auth mw req)))
      as [verdict|e].
    + destruct (truthy verdict).
      * rewrite next_run, asked_log.
        exists [EvNext], (Ret VUndefined). split; reflexivity.
      * destruct (unauthorized_frame mw (asked auth mw req))
          as [evs [r [H Hevs]]].
        rewrite H, asked_log. exists evs, r.
        split; [reflexivity | now apply response_no_authorize].
    + exists [], (Throw e). split; [|reflexivity].
      rewrite <- asked_log. now destruct (asked auth mw req).
Qed.

(** An authorizer that throws ends the call. *)
Lemma handle_authorizer_throws (req : request) (e : exn) :
  asks auth mw req = true ->
  (if isAsync mw
   then apply (authorizer mw) (authorizer_args auth mw req) = Raise e
   else run_plain (apply (authorizer mw) (authorizer_args auth mw req))
        = Throw e) ->
  handle auth mw req = (asked auth mw req, Throw e).
Proof.
  intros Hasks Hthrow.
  rewrite handle_asks by (rewrite asks_gate, Hasks; reflexivity).
  destruct (isAsync mw); rewrite Hthrow; reflexivity.
Qed.

(** An allowed request: the call of the authorizer, then [next]. *)
Lemma handle_allowed (req : request) :
  (isAsync mw = true ->
   calls_back_at_most_once
     (apply (authorizer mw) (authorizer_args auth mw req))) ->
  decide auth mw req = Some Allow ->
  fst (handle auth mw req)
  = mkState (st_req (asked auth mw req))
      [EvAuthorize (authorizer_args auth mw req); EvNext].
Proof.
  intros Hcontract Hallow. unfold decide in Hallow.
  destruct (negb (is_some (auth req)) && negb (allowEmptyCredentials mw))
    eqn:Hgate; [discriminate|].
  rewrite handle_asks by exact Hgate. unfold answer in Hallow.
  assert (Hnext :
    fst (next (asked auth mw req))
    = mkState (st_req (asked auth mw req))
        [EvAuthorize (authorizer_args auth mw req); EvNext])
    by (rewrite next_run, asked_log; reflexivity).
  destruct (isAsync mw).
  - rewrite run_with_at_most_once by (apply Hcontract; reflexivity).
    destruct (apply (authorizer mw) (authorizer_args auth mw req))
      as [v|e|err approved k]; try discriminate.
    destruct (is_error err) eqn:E; [discriminate|].
    rewrite authorizerCallback_no_error by exact E.
    destruct (truthy approved); [exact Hnext | discriminate].
  - destruct (run_plain (apply (authorizer mw) (authorizer_args auth mw req)))
      as [verdict|e]; [|discriminate].
    destruct (truthy verdict); [exact Hnext | discriminate].
Qed.

End Outcomes.

(** X6.  Whenever the middleware goes on to the authorizer (the header
    carries credentials, or [allowEmptyCredentials] is set), the
    credentials are attached to the request and stay attached whatever
    happens next (approval, denial, an exception), the rest of the request
    is unchanged, and the authorizer is called exactly once: first of all,
    with the request (if [passRequest]), the name, the password and the
    callback (if asynchronous); nothing that follows calls it again, even
    when it calls back several times. *)
Theorem credentials_attached_and_authorizer_called_once :
  forall (auth : request -> option (jsstring * jsstring))
         (mw : middleware) (req : request),
    asks auth mw req = true ->
    let name := fst (credentials (auth req)) in
    let pass := snd (credentials (auth req)) in
    let req' := mkRequest (req_headers req) (req_params req) (Some (name, pass)) in
    let args :=
      (if passRequest mw then [AReq req'] else [])
        ++ [AVal name; AVal pass]
        ++ (if isAsync mw then [ACallback] else []) in
    exists evs r,
      handle auth mw req = (mkState req' (EvAuthorize args :: evs), r)
      /\ count_authorize (EvAuthorize args :: evs) = 1%nat.
Proof.
  intros auth mw req Hasks name pass req' args.
  destruct (handle_asks_once auth mw req Hasks) as [evs [r [H N]]].
  exists evs, r.
  assert (Hargs : authorizer_args auth mw req = args).
  { unfold authorizer_args. subst args req' name pass.
    now destruct (credentials (auth req)). }
  rewrite asked_req, Hargs in H. split; [exact H|].
  unfold count_authorize. simpl. f_equal.
  clear H. induction evs as [|e evs IH]; [reflexivity|].
  simpl in N. apply orb_false_iff in N. destruct N as [Ne Nevs].
  simpl. rewrite Ne. now apply IH.
Qed.

Lemma credentials_attached_and_authorizer_called_once_witness :
  exists evs r,
    handle (found (lit "Aererer") (lit "secretiveStuff"))
      (built (async_with twiceAuthorizer)) bare_request
    = (mkState (mkRequest [] []
                  (Some (VStr (lit "Aererer"), VStr (lit "secretiveStuff"))))
         (EvAuthorize [AVal (VStr (lit "Aererer"));
                       AVal (VStr (lit "secretiveStuff")); ACallback] :: evs),
       r)
    /\ count_authorize
         (EvAuthorize [AVal (VStr (lit "Aererer"));
                       AVal (VStr (lit "secretiveStuff")); ACallback] :: evs)
       = 1%nat.
Proof.
  exact (credentials_attached_and_authorizer_called_once
           (found (lit "Aererer") (lit "secretiveStuff"))
           (built (async_with twiceAuthorizer)) bare_request eq_refl).
Defined.

(** X7.  An exception of the authorizer is not turned into a denial:
    when the authorizer throws (a synchronous one at any point, an
    asynchronous one before it calls back), the middleware call throws the
    same exception, with the credentials attached and nothing done but the
    call of the authorizer: no header, no 401, no [next]. *)
Theorem authorizer_exception_propagates :
  forall (auth : request -> option (jsstring * jsstring))
         (mw : middleware) (req : request) (e : exn),
    asks auth mw req = true ->
    (if isAsync mw
     then apply (authorizer mw) (authorizer_args auth mw req) = Raise e
     else run_plain (apply (authorizer mw) (authorizer_args auth mw req))
          = Throw e) ->
    handle auth mw req
    = (mkState (attach req (fst (credentials (auth req)))
                  (snd (credentials (auth req))))
         [EvAuthorize (authorizer_args auth mw req)],
       Throw e).
Proof.
  intros auth mw req e Hasks Hthrow.
  rewrite (handle_authorizer_throws auth mw req e Hasks Hthrow).
  f_equal.
  rewrite <- (asked_req auth mw req), <- (asked_log auth mw req).
  now destruct (asked auth mw req).
Qed.

Lemma authorizer_exception_propagates_witness :
  handle no_credentials (built custom_allowing_empty) bare_request
  = (mkState (attach bare_request VNull VNull)
       [EvAuthorize [AVal VNull; AVal VNull]],
     Throw TypeError).
Proof.
  exact (authorizer_exception_propagates no_credentials
           (built custom_allowing_empty) bare_request TypeError
           eq_refl eq_refl).
Defined.

(** X8.  An allowed request goes through untouched: when the decision
    is Allow, all the middleware has done is attach the credentials, call
    the authorizer and call [next], in that order; nothing is set or sent
    on the response.  An asynchronous authorizer is taken to call back at
    most once. *)
Theorem allowed_request_untouched :
  forall (auth : request -> option (jsstring * jsstring))
         (mw : middleware) (req : request),
    (isAsync mw = true ->
     calls_back_at_most_once
       (apply (authorizer mw) (authorizer_args auth mw req))) ->
    decide auth mw req = Some Allow ->
    fst (handle auth mw req)
    = mkState (attach req (fst (credentials (auth req)))
                 (snd (credentials (auth req))))
        [EvAuthorize (authorizer_args auth mw req); EvNext].
Proof.
  intros auth mw req Hcontract Hallow.
  rewrite (handle_allowed auth mw req Hcontract Hallow).
  now rewrite asked_req.
Qed.

Lemma allowed_request_untouched_witness :
  fst (handle (found (lit "Aererer") (lit "secretiveStuff"))
         (built (async_with myAsyncAuthorizer)) bare_request)
  = mkState (attach bare_request (VStr (lit "Aererer"))
               (VStr (lit "secretiveStuff")))
      [EvAuthorize [AVal (VStr (lit "Aererer"));
                    AVal (VStr (lit "secretiveStuff")); ACallback];
       EvNext].
Proof.
  exact (allowed_request_untouched
           (found (lit "Aererer") (lit "secretiveStuff"))
           (built (async_with myAsyncAuthorizer)) bare_request
           (fun _ => myAsyncAuthorizer_calls_back_once _) eq_refl).
Defined.

(* ================================================================== *)
(** ** Further properties of the built-in policy inside the middleware *)
(* ================================================================== *)

Lemma closure_static (options : Options.t) (table : list (jsstring * value)) :
  Options.users options = Val (VObj table) ->
  truthy_jsval (Options.authorizer options) = false ->
  users (closure options) = Val (VObj table)
  /\ authorizer (closure options)
     = Fun (staticUsersAuthorizer (Val (VObj table))).
Proof.
  intros Hu Ha. unfold closure. cbn [users authorizer].
  rewrite Hu, (or_else_falsy _ _ Ha). split; reflexivity.
Qed.

Lemma closure_default_policy (options : Options.t) :
  truthy_jsval (Options.authorizer options) = false ->
  authorizer (closure options)
  = Fun (staticUsersAuthorizer (users (closure options))).
Proof.
  intros Ha. unfold closure. cbn [users authorizer].
  now rewrite (or_else_falsy _ _ Ha).
Qed.

Lemma static_policy_on_strings (table : list (jsstring * value))
    (username password : jsstring) (more : list jsany) :
  passwords_are_strings table = true ->
  staticUsersAuthorizer (Val (VObj table))
    (str username :: str password :: more)
  = Return (fold_left (or_step table username password) (keys table)
              (VBool false)).
Proof.
  intros H. unfold staticUsersAuthorizer, staticUsersAuthorizer_calls, argument.
  simpl nth. simpl enumerable.
  now rewrite for_in_users_strings by exact H.
Qed.

Lemma static_policy_truthy (table : list (jsstring * value))
    (username password : jsstring) :
  truthy (fold_left (or_step table username password) (keys table) (VBool false))
  = table_matches table username password.
Proof.
  destruct (fold_or_step table username password (keys table) (VBool false))
    as [_ T]; [left; reflexivity | exact T].
Qed.

Lemma static_policy_no_users (users : jsval) (args : list jsany) :
  enumerable users = [] ->
  staticUsersAuthorizer users args = Return (VBool false).
Proof.
  intros H. unfold staticUsersAuthorizer, staticUsersAuthorizer_calls.
  now rewrite H.
Qed.

Lemma table_matches_iff (table : list (jsstring * value))
    (username password : jsstring) :
  table_matches table username password = true <->
  exists i stored,
    In i (keys table) /\ get table i = VStr stored
    /\ Buffer.utf8 username = Buffer.utf8 i
    /\ Buffer.utf8 password = Buffer.utf8 stored.
Proof.
  unfold table_matches. rewrite existsb_exists. unfold entry_matches. split.
  - intros [i [Hin Hm]]. apply andb_true_iff in Hm. destruct Hm as [Hu Hp].
    destruct (get table i) as [| | | |stored|] eqn:G; try discriminate.
    exists i, stored. rewrite same_bytes_iff in Hu, Hp. auto.
  - intros [i [stored [Hin [G [Hu Hp]]]]]. exists i. split; [exact Hin|].
    rewrite G. apply andb_true_iff. now rewrite !same_bytes_iff.
Qed.

(** X9.  The middleware built on a table of string passwords alone (no
    authorizer, synchronous, without the request): a request whose header
    carries a name and a password is allowed exactly when some entry of
    the table has the bytes of the name for its key and the bytes of the
    password for its value.  Then [next] is called, once, and nothing is
    done on the response; otherwise the decision is Deny and [next] is not
    called. *)
Theorem static_table_middleware :
  forall (options : Options.t) (mw : middleware)
         (auth : request -> option (jsstring * jsstring)) (req : request)
         (table : list (jsstring * value)) (name pass : jsstring),
    buildMiddleware options = Ret mw ->
    Options.users options = Val (VObj table) ->
    truthy_jsval (Options.authorizer options) = false ->
    truthy_jsval (Options.authorizeAsync options) = false ->
    truthy_jsval (Options.passRequest options) = false ->
    passwords_are_strings table = true ->
    auth req = Some (name, pass) ->
    decide auth mw req
    = Some (if table_matches table name pass then Allow else Deny)
    /\ count_next (st_log (fst (handle auth mw req)))
       = (if table_matches table name pass then 1%nat else 0%nat)
    /\ (table_matches table name pass = true ->
        st_log (fst (handle auth mw req))
        = [EvAuthorize [AVal (VStr name); AVal (VStr pass)]; EvNext])
    /\ (table_matches table name pass = true <->
        exists i stored,
          In i (keys table) /\ get table i = VStr stored
          /\ Buffer.utf8 name = Buffer.utf8 i
          /\ Buffer.utf8 pass = Buffer.utf8 stored).
Proof.
  intros options mw auth req table name pass
         Hbuild Hu Ha Hasync Hpass Hstrings Hauth.
  rewrite (built_closure options mw Hbuild).
  destruct (closure_static options table Hu Ha) as [_ Hpolicy].
  set (c := closure options) in *.
  assert (Hsync : isAsync c = false) by exact Hasync.
  assert (Hnoreq : passRequest c = false) by exact Hpass.
  assert (Hargs :
    authorizer_args auth c req = [str name; str pass]).
  { unfold authorizer_args. rewrite Hauth, Hsync, Hnoreq. reflexivity. }
  assert (Hdecide :
    decide auth c req
    = Some (if table_matches table name pass then Allow else Deny)).
  { unfold decide, answer. rewrite Hauth, Hsync, Hargs, Hpolicy. simpl.
    rewrite static_policy_on_strings by exact Hstrings. simpl.
    rewrite static_policy_truthy.
    now destruct (table_matches table name pass). }
  assert (Hcontract :
    isAsync c = true ->
    calls_back_at_most_once (apply (authorizer c) (authorizer_args auth c req)))
    by (rewrite Hsync; discriminate).
  split; [exact Hdecide|]. split.
  { rewrite (count_next_handle auth c req Hcontract), Hdecide.
    now destruct (table_matches table name pass). }
  split; [|apply table_matches_iff].
  intros Hm. rewrite Hm in Hdecide.
  rewrite (handle_allowed auth c req Hcontract Hdecide). simpl.
  now rewrite Hargs.
Qed.

Lemma static_table_middleware_witness :
  decide (found (lit "Admin") (lit "secret1234"))
    (built (staticUserAuth VUndefined)) bare_request = Some Allow
  /\ decide (found (lit "Admin") (lit "secret"))
       (built (staticUserAuth VUndefined)) bare_request = Some Deny.
Proof.
  split.
  - exact (proj1 (static_table_middleware (staticUserAuth VUndefined)
                    (built (staticUserAuth VUndefined))
                    (found (lit "Admin") (lit "secret1234")) bare_request
                    admin_table (lit "Admin") (lit "secret1234")
                    eq_refl eq_refl eq_refl eq_refl eq_refl eq_refl eq_refl)).
  - exact (proj1 (static_table_middleware (staticUserAuth VUndefined)
                    (built (staticUserAuth VUndefined))
                    (found (lit "Admin") (lit "secret")) bare_request
                    admin_table (lit "Admin") (lit "secret")
                    eq_refl eq_refl eq_refl eq_refl eq_refl eq_refl eq_refl)).
Defined.

(** X10.  The built-in policy does not call back: with [authorizeAsync]
    set and no authorizer configured, a request with credentials is never
    answered, whether they match the table or not.  The policy is called
    with the callback as a third argument, which it ignores; its result is
    handed back by the middleware, and neither [next] nor any call on the
    response is made. *)
Theorem static_policy_async_never_answers :
  forall (options : Options.t) (mw : middleware)
         (auth : request -> option (jsstring * jsstring)) (req : request)
         (table : list (jsstring * value)) (name pass : jsstring),
    buildMiddleware options = Ret mw ->
    Options.users options = Val (VObj table) ->
    truthy_jsval (Options.authorizer options) = false ->
    truthy_jsval (Options.authorizeAsync options) = true ->
    truthy_jsval (Options.passRequest options) = false ->
    passwords_are_strings table = true ->
    auth req = Some (name, pass) ->
    exists authorized,
      handle auth mw req
      = (mkState (attach req (VStr name) (VStr pass))
           [EvAuthorize [AVal (VStr name); AVal (VStr pass); ACallback]],
         Ret authorized)
      /\ truthy authorized = table_matches table name pass
      /\ decide auth mw req = None.
Proof.
  intros options mw auth req table name pass
         Hbuild Hu Ha Hasync Hpass Hstrings Hauth.
  rewrite (built_closure options mw Hbuild).
  destruct (closure_static options table Hu Ha) as [_ Hpolicy].
  set (c := closure options) in *.
  assert (His : isAsync c = true) by exact Hasync.
  assert (Hnoreq : passRequest c = false) by exact Hpass.
  assert (Hargs :
    authorizer_args auth c req = [str name; str pass; ACallback]).
  { unfold authorizer_args. rewrite Hauth, His, Hnoreq. reflexivity. }
  assert (Hcall :
    apply (authorizer c) (authorizer_args auth c req)
    = Return (fold_left (or_step table name pass) (keys table) (VBool false))).
  { rewrite Hargs, Hpolicy. simpl.
    now rewrite static_policy_on_strings by exact Hstrings. }
  exists (fold_left (or_step table name pass) (keys table) (VBool false)).
  split.
  { rewrite handle_asks by (rewrite Hauth; reflexivity).
    rewrite His, Hcall. simpl. unfold asked. rewrite Hauth. simpl.
    now rewrite Hargs. }
  split; [apply static_policy_truthy|].
  unfold decide, answer. rewrite Hauth, His, Hcall. reflexivity.
Qed.

Lemma static_policy_async_never_answers_witness :
  exists authorized,
    handle (found (lit "Admin") (lit "secret1234")) (built static_async)
      bare_request
    = (mkState (attach bare_request (VStr (lit "Admin"))
                  (VStr (lit "secret1234")))
         [EvAuthorize [AVal (VStr (lit "Admin"));
                       AVal (VStr (lit "secret1234")); ACallback]],
       Ret authorized)
    /\ truthy authorized = true.
Proof.
  destruct (static_policy_async_never_answers static_async (built static_async)
              (found (lit "Admin") (lit "secret1234")) bare_request
              admin_table (lit "Admin") (lit "secret1234")
              eq_refl eq_refl eq_refl eq_refl eq_refl eq_refl eq_refl)
    as [authorized [Hrun [Htruthy _]]].
  exists authorized. split; [exact Hrun|].
  rewrite Htruthy. reflexivity.
Defined.

(** X11.  The built-in policy takes its first argument for the user
    name: with [passRequest] set and no authorizer configured, no request
    is ever allowed.  When the table is not empty and the policy is asked,
    the request object reaches [safeCompare] and the middleware call
    throws a TypeError, also for credentials that are in the table. *)
Theorem static_policy_with_request_never_allows :
  forall (options : Options.t) (mw : middleware)
         (auth : request -> option (jsstring * jsstring)) (req : request)
         (table : list (jsstring * value)),
    buildMiddleware options = Ret mw ->
    Options.users options = Val (VObj table) ->
    truthy_jsval (Options.authorizer options) = false ->
    truthy_jsval (Options.passRequest options) = true ->
    count_next (st_log (fst (handle auth mw req))) = 0%nat
    /\ (table <> [] -> asks auth mw req = true ->
        snd (handle auth mw req) = Throw TypeError).
Proof.
  intros options mw auth req table Hbuild Hu Ha Hpass.
  rewrite (built_closure options mw Hbuild).
  destruct (closure_static options table Hu Ha) as [_ Hpolicy].
  set (c := closure options) in *.
  assert (Hreq : passRequest c = true) by exact Hpass.
  assert (Hname : is_string (argument 0 (authorizer_args auth c req)) = false).
  { unfold authorizer_args. destruct (credentials (auth req)).
    now rewrite Hreq. }
  assert (Hthrows : table <> [] ->
    apply (authorizer c) (authorizer_args auth c req) = Raise TypeError).
  { intros Ht. rewrite Hpolicy. simpl.
    now apply staticUsersAuthorizer_non_string. }
  assert (Hempty : table = [] ->
    apply (authorizer c) (authorizer_args auth c req) = Return (VBool false)).
  { intros ->. rewrite Hpolicy. simpl. now apply static_policy_no_users. }
  split.
  - destruct (asks auth c req) eqn:Hasks.
    + rewrite handle_asks by (rewrite asks_gate, Hasks; reflexivity).
      destruct table as [|entry table'].
      * rewrite (Hempty eq_refl).
        destruct (isAsync c).
        -- change (count_next (st_log (asked auth c req)) = 0%nat).
           apply count_next_asked.
        -- change (count_next
                     (st_log (fst (unauthorized c (asked auth c req))))
                   = 0%nat).
           rewrite count_next_unauthorized. apply count_next_asked.
      * rewrite Hthrows by discriminate.
        destruct (isAsync c);
          change (count_next (st_log (asked auth c req)) = 0%nat);
          apply count_next_asked.
    + unfold asks in Hasks. apply orb_false_iff in Hasks.
      destruct Hasks as [Hnone Hallow].
      destruct (auth req) eqn:Hauth; [discriminate|].
      rewrite handle_denied_at_once by assumption.
      now rewrite count_next_unauthorized.
  - intros Ht Hasks.
    rewrite handle_asks by (rewrite asks_gate, Hasks; reflexivity).
    rewrite (Hthrows Ht). now destruct (isAsync c).
Qed.

Lemma static_policy_with_request_never_allows_witness :
  count_next
    (st_log (fst (handle (found (lit "Admin") (lit "secret1234"))
                    (built static_with_request) bare_request))) = 0%nat
  /\ snd (handle (found (lit "Admin") (lit "secret1234"))
            (built static_with_request) bare_request) = Throw TypeError.
Proof.
  destruct (static_policy_with_request_never_allows static_with_request
              (built static_with_request)
              (found (lit "Admin") (lit "secret1234")) bare_request
              admin_table eq_refl eq_refl eq_refl eq_refl)
    as [Hcount Hthrow].
  split; [exact Hcount|].
  apply Hthrow; [discriminate | reflexivity].
Defined.

(** X12.  Without users and without an authorizer every request is
    denied: when the [users] of the middleware have no property (the
    option was falsy or an empty object) and the built-in policy is used
    synchronously, the decision is Deny for every request, with or without
    credentials, with or without [passRequest] and
    [allowEmptyCredentials] (the loop never reaches [safeCompare]), and
    [next] is never called. *)
Theorem no_users_denies_everything :
  forall (options : Options.t) (mw : middleware)
         (auth : request -> option (jsstring * jsstring)) (req : request),
    buildMiddleware options = Ret mw ->
    truthy_jsval (Options.authorizer options) = false ->
    truthy_jsval (Options.authorizeAsync options) = false ->
    enumerable (users mw) = [] ->
    decide auth mw req = Some Deny
    /\ count_next (st_log (fst (handle auth mw req))) = 0%nat.
Proof.
  intros options mw auth req Hbuild Ha Hasync Hnone.
  rewrite (built_closure options mw Hbuild) in *.
  pose proof (closure_default_policy options Ha) as Hpolicy.
  set (c := closure options) in *.
  assert (Hsync : isAsync c = false) by exact Hasync.
  assert (Hdecide : decide auth c req = Some Deny).
  { unfold decide, answer. rewrite Hsync, Hpolicy. simpl.
    rewrite static_policy_no_users by exact Hnone. simpl.
    match goal with |- (if ?b then _ else _) = _ => now destruct b end. }
  split; [exact Hdecide|].
  rewrite (count_next_handle auth c req), Hdecide; [reflexivity|].
  rewrite Hsync. discriminate.
Qed.

Lemma no_users_denies_everything_witness :
  decide (found (lit "Admin") (lit "secret1234")) (built no_options)
    bare_request = Some Deny
  /\ count_next
       (st_log (fst (handle (found (lit "Admin") (lit "secret1234"))
                       (built no_options) bare_request))) = 0%nat.
Proof.
  exact (no_users_denies_everything no_options (built no_options)
           (found (lit "Admin") (lit "secret1234")) bare_request
           eq_refl eq_refl eq_refl eq_refl).
Defined.

(* ================================================================== *)
(** ** Further properties: callers of the module in the test suite *)
(* ================================================================== *)

Lemma request_seen_asks (auth : request -> option (jsstring * jsstring))
    (mw : middleware) (req : request) :
  request_seen auth mw req
  = if asks auth mw req
    then attach req (fst (credentials (auth req))) (snd (credentials (auth req)))
    else req.
Proof.
  unfold request_seen. rewrite asks_gate, asked_req.
  now destruct (asks auth mw req).
Qed.

(** X13.  The body producer sees who was attempted: with
    [getUnauthorizedResponse] as the [unauthorizedResponse] option and a
    request that comes in without an [auth] property, a denied request is
    answered 401 with the text [No credentials provided] when the
    authorizer was not asked (no credentials, empty ones not allowed), and
    with [Credentials <name>:<password> rejected] when it was asked and
    refused, the credentials being those attached before the call
    ([null:null] for allowed empty ones).  An asynchronous authorizer is
    taken to call back at most once. *)
Theorem denial_body_names_the_attempt :
  forall (auth : request -> option (jsstring * jsstring))
         (mw : middleware) (req : request) (realmName : value),
    getResponseBody mw = getUnauthorizedResponse ->
    req_auth req = None ->
    (isAsync mw = true ->
     calls_back_at_most_once
       (apply (authorizer mw) (authorizer_args auth mw req))) ->
    decide auth mw req = Some Deny ->
    (challenge mw = true ->
     run_plain (realm mw [AReq (request_seen auth mw req)]) = Ret realmName) ->
    exists before,
      st_log (fst (handle auth mw req))
      = before
        ++ [EvStatus 401;
            EvSend (if asks auth mw req
                    then rejected_message (fst (credentials (auth req)))
                           (snd (credentials (auth req)))
                    else lit "No credentials provided")]
      /\ existsb is_body before = false.
Proof.
  intros auth mw req realmName Hbody Hfresh Hcontract Hdeny Hrealm.
  set (text := if asks auth mw req
               then rejected_message (fst (credentials (auth req)))
                      (snd (credentials (auth req)))
               else lit "No credentials provided").
  assert (Hresponse :
    run_plain (getResponseBody mw [AReq (request_seen auth mw req)])
    = Ret (VStr text)).
  { rewrite Hbody, request_seen_asks. subst text.
    unfold getUnauthorizedResponse, argument. simpl nth.
    destruct (asks auth mw req); [reflexivity|].
    now rewrite Hfresh. }
  pose proof (handle_denied auth mw req realmName (VStr text)
                Hcontract Hdeny Hrealm Hresponse) as Hrun.
  exists ((if negb (is_some (auth req)) && negb (allowEmptyCredentials mw)
           then [] else [EvAuthorize (authorizer_args auth mw req)])
          ++ (if challenge mw
              then [EvSet www_authenticate (challengeString realmName)]
              else [])).
  rewrite Hrun. cbn [st_log]. unfold denial_events.
  split; [now rewrite <- !app_assoc|].
  destruct (negb (is_some (auth req)) && negb (allowEmptyCredentials mw));
    destruct (challenge mw); reflexivity.
Qed.

Lemma denial_body_names_the_attempt_witness :
  (exists before,
     st_log (fst (handle no_credentials (built customBodyAuth) bare_request))
     = before ++ [EvStatus 401; EvSend (lit "No credentials provided")])
  /\ (exists before,
        st_log (fst (handle (found (lit "dude") (lit "stuff"))
                       (built customBodyAuth) bare_request))
        = before
          ++ [EvStatus 401; EvSend (lit "Credentials dude:stuff rejected")]).
Proof.
  split.
  - destruct (denial_body_names_the_attempt no_credentials
                (built customBodyAuth) bare_request VUndefined
                eq_refl eq_refl
                (fun H => match Bool.diff_false_true H with end) eq_refl
                (fun H => match Bool.diff_false_true H with end))
      as [before [Hlog _]].
    exists before. exact Hlog.
  - destruct (denial_body_names_the_attempt
                (found (lit "dude") (lit "stuff"))
                (built customBodyAuth) bare_request VUndefined
                eq_refl eq_refl
                (fun H => match Bool.diff_false_true H with end) eq_refl
                (fun H => match Bool.diff_false_true H with end))
      as [before [Hlog _]].
    exists before. exact Hlog.
Defined.

Lemma well_formed_Testeroni : Buffer.well_formed (lit "Testeroni") = true.
Proof. reflexivity. Qed.

Lemma well_formed_testsecret : Buffer.well_formed (lit "testsecret") = true.
Proof. reflexivity. Qed.

(** X14.  A policy made of two calls of the exported [safeCompare]
    joined by [&], as [myComparingAuthorizer]: used synchronously and
    without the request, it allows a request with credentials exactly when
    the name has the bytes of [Testeroni] and the password those of
    [testsecret], and denies it otherwise (a prefix such as [Test]/[test]
    included); for well-formed strings, exactly when they are these two
    strings. *)
Theorem comparing_authorizer_middleware :
  forall (auth : request -> option (jsstring * jsstring))
         (mw : middleware) (req : request) (name pass : jsstring),
    authorizer mw = Fun myComparingAuthorizer ->
    isAsync mw = false ->
    passRequest mw = false ->
    auth req = Some (name, pass) ->
    decide auth mw req
    = Some (if same_bytes name (lit "Testeroni")
               && same_bytes pass (lit "testsecret")
            then Allow else Deny)
    /\ (Buffer.well_formed name = true -> Buffer.well_formed pass = true ->
        (decide auth mw req = Some Allow
         <-> name = lit "Testeroni" /\ pass = lit "testsecret")).
Proof.
  intros auth mw req name pass Hpolicy Hsync Hnoreq Hauth.
  assert (Hdecide :
    decide auth mw req
    = Some (if same_bytes name (lit "Testeroni")
               && same_bytes pass (lit "testsecret")
            then Allow else Deny)).
  { unfold decide, answer, authorizer_args.
    rewrite Hauth, Hsync, Hnoreq, Hpolicy. simpl credentials. cbv iota.
    cbn [app apply is_some negb andb].
    unfold myComparingAuthorizer, argument. simpl nth.
    change (AVal (VStr name)) with (str name).
    change (AVal (VStr pass)) with (str pass).
    rewrite !safeCompare_same_bytes. cbn [run_plain].
    rewrite land_b2z_andb.
    destruct (same_bytes name (lit "Testeroni")
              && same_bytes pass (lit "testsecret")); reflexivity. }
  split; [exact Hdecide|].
  intros Wn Wp. rewrite Hdecide.
  destruct (same_bytes name (lit "Testeroni")) eqn:En;
    destruct (same_bytes pass (lit "testsecret")) eqn:Ep; simpl.
  - apply same_bytes_iff in En, Ep.
    apply Utf8Facts.utf8_injective in En;
      [|exact Wn | exact well_formed_Testeroni].
    apply Utf8Facts.utf8_injective in Ep;
      [|exact Wp | exact well_formed_testsecret].
    split; auto.
  - split; [discriminate|]. intros [_ ->].
    unfold same_bytes in Ep.
    destruct (list_eq_dec Z.eq_dec (Buffer.utf8 (lit "testsecret"))
                (Buffer.utf8 (lit "testsecret"))); [discriminate | now exfalso].
  - split; [discriminate|]. intros [-> _].
    unfold same_bytes in En.
    destruct (list_eq_dec Z.eq_dec (Buffer.utf8 (lit "Testeroni"))
                (Buffer.utf8 (lit "Testeroni"))); [discriminate | now exfalso].
  - split; [discriminate|]. intros [-> _].
    unfold same_bytes in En.
    destruct (list_eq_dec Z.eq_dec (Buffer.utf8 (lit "Testeroni"))
                (Buffer.utf8 (lit "Testeroni"))); [discriminate | now exfalso].
Qed.

Lemma comparing_authorizer_middleware_witness :
  decide (found (lit "Testeroni") (lit "testsecret")) (built customCompareAuth)
    bare_request = Some Allow
  /\ decide (found (lit "Test") (lit "test")) (built customCompareAuth)
       bare_request = Some Deny.
Proof.
  split.
  - exact (proj1 (comparing_authorizer_middleware
                    (found (lit "Testeroni") (lit "testsecret"))
                    (built customCompareAuth) bare_request
                    (lit "Testeroni") (lit "testsecret")
                    eq_refl eq_refl eq_refl eq_refl)).
  - exact (proj1 (comparing_authorizer_middleware
                    (found (lit "Test") (lit "test"))
                    (built customCompareAuth) bare_request
                    (lit "Test") (lit "test")
                    eq_refl eq_refl eq_refl eq_refl)).
Defined.

(* ================================================================== *)
(** ** Further properties of the built-in policy: passwords that are
       not strings *)
(* ================================================================== *)

Lemma for_in_users_non_string_password (table : list (jsstring * value))
    (username password : jsstring) :
  forall remaining authorized calls,
    forallb (fun i => match get table i with VStr _ => true | _ => false end)
            remaining = false ->
    snd (for_in_users table (str username) (str password) remaining
           authorized calls)
    = Throw TypeError.
Proof.
  induction remaining as [|i rest IH]; intros authorized calls H;
    [discriminate|].
  simpl in H. cbn [for_in_users].
  change (AVal (VStr i)) with (str i). rewrite safeCompare_same_bytes.
  destruct (get table i) as [| | | |stored|] eqn:G;
    try (rewrite safeCompare_non_string by (right; reflexivity); reflexivity).
  change (AVal (VStr stored)) with (str stored).
  rewrite safeCompare_same_bytes. apply IH. exact H.
Qed.

(** X15.  One password that is not a string disables the whole table:
    when some value of the [users] object is not a string, the built-in
    policy throws a TypeError for every name and password, also for
    credentials that match another entry, because the loop compares the
    password with every value. *)
Theorem static_policy_non_string_password :
  forall (table : list (jsstring * value)) (username password : jsstring)
         (more : list jsany),
    passwords_are_strings table = false ->
    staticUsersAuthorizer (Val (VObj table))
      (str username :: str password :: more)
    = Raise TypeError.
Proof.
  intros table username password more H.
  unfold staticUsersAuthorizer, staticUsersAuthorizer_calls, argument.
  simpl nth. simpl enumerable.
  now rewrite for_in_users_non_string_password by exact H.
Qed.

Lemma static_policy_non_string_password_witness :
  passwords_are_strings numeric_password_table = false
  /\ staticUsersAuthorizer (Val (VObj numeric_password_table))
       [str (lit "Admin"); str (lit "secret1234")]
     = Raise TypeError.
Proof.
  split; [reflexivity|].
  exact (static_policy_non_string_password numeric_password_table
           (lit "Admin") (lit "secret1234") [] eq_refl).
Defined.
